(** * A shallow embedding of the workflow engine core

    Two Go files are embedded: [workflow.go] (the engine: [Run], the
    role-leased [run] loop, [Stop] and the store facade [update]) in
    [Module Engine], and [builder.go] (the builder DSL: [AddStep],
    [AddTimeout], the updaters' [WithOptions] and [Build]) in [Module DSL].
    The two files declare the workflow struct differently ([consumers] is a
    map to slices in the first and a map to single configurations in the
    second), so each module carries the struct as its own file sees it. *)

From Stdlib Require Import ZArith Lia.
From stdpp Require Import gmap strings list fin_maps list_numbers pretty.

Local Open Scope Z_scope.

(** ** The pieces of the Go runtime the code relies on *)

Module Go.

(** Go's [int] on a 64-bit platform: two's complement, wrapping silently. *)
Definition int_bits : Z := 64.
Definition max_int : Z := 2 ^ (int_bits - 1) - 1.
Definition min_int : Z := - 2 ^ (int_bits - 1).

Definition wrap_int (z : Z) : Z :=
  (z + 2 ^ (int_bits - 1)) mod 2 ^ int_bits - 2 ^ (int_bits - 1).

(** [time.Duration]: a count of nanoseconds. *)
Definition Duration : Type := Z.

(** User-supplied function values ([ConsumerFunc], [TimerFunc], ...) are
    stored and handed to goroutines but never called by the embedded code;
    they are carried as opaque references. *)
Definition FuncRef : Type := string.

(** Errors as [errors.Is] sees them: [context.Canceled], any other error,
    or a wrapper around an error.  A nil error is [None]. *)
Inductive error : Type :=
| Canceled
| Failure (msg : string)
| Wrap (msg : string) (inner : error).

Fixpoint is_canceled (e : error) : bool :=
  match e with
  | Canceled => true
  | Failure _ => false
  | Wrap _ inner => is_canceled inner
  end.

(** [errors.IsAny(err, context.Canceled)]: false on a nil error. *)
Definition IsAny_Canceled (err : option error) : bool :=
  match err with
  | None => false
  | Some e => is_canceled e
  end.

(** Contexts.  [context.WithCancel] derives a child with a fresh identity;
    its [CancelFunc] marks that identity as cancelled.  A context is done
    as soon as it or one of its ancestors has been cancelled. *)
Inductive Context : Type :=
| Background
| Derived (id : nat) (parent : Context).

Definition CancelFunc : Type := nat.

Record CtxHeap : Type := mkCtxHeap {
  cancelled : gset nat;
  next_id : nat
}.

Definition WithCancel (parent : Context) (h : CtxHeap)
  : Context * CancelFunc * CtxHeap :=
  (Derived (next_id h) parent, next_id h,
   mkCtxHeap (cancelled h) (S (next_id h))).

Definition call_cancel (c : CancelFunc) (h : CtxHeap) : CtxHeap :=
  mkCtxHeap ({[ c ]} ∪ cancelled h) (next_id h).

(** [ctx.Err() != nil] *)
Fixpoint ctx_done (h : CtxHeap) (c : Context) : bool :=
  match c with
  | Background => false
  | Derived id parent => bool_decide (id ∈ cancelled h) || ctx_done h parent
  end.

(** The counting loop [for i := start; i <= total; i++ { go f(i, total) }].
    The result lists what was launched, in order; [None] means the loop is
    still running when the fuel is spent. *)
Fixpoint for_shards {A : Type} (fuel : nat) (launch : Z → Z → A)
    (i total : Z) : option (list A) :=
  match fuel with
  | O => None
  | S fuel' =>
      if i <=? total then
        cons (launch i total) <$> for_shards fuel' launch (wrap_int (i + 1)) total
      else Some []
  end.

End Go.

Import Go.

(** Collecting what a sequence of launch steps starts, left to right. *)
Fixpoint launch_each {A B : Type} (f : A → option (list B)) (l : list A)
  : option (list B) :=
  match l with
  | [] => Some []
  | a :: l' =>
      match f a with
      | None => None
      | Some gs =>
          match launch_each f l' with
          | None => None
          | Some gs' => Some (gs ++ gs')
          end
      end
  end.

(** ** workflow.go *)

Module Engine.

(** The generic parameter [Status StatusType]: integer-valued. *)
Definition StatusType : Type := Z.

(** The states a process reports (their string values are not needed). *)
Inductive State : Type :=
| StateUnknown
| StateShutdown
| StateRunning
| StateIdle.

#[global] Instance State_eq_dec : EqDecision State.
Proof. solve_decision. Defined.

(** The configurations [Run] reads.  Only the parallel count is inspected;
    the handlers travel with the configuration into the goroutine. *)
Record consumerConfig : Type := mkConsumerConfig {
  ParallelCount : Z;
  Consumer : FuncRef
}.

Record timeouts : Type := mkTimeouts {
  Transitions : list (FuncRef * FuncRef)
}.

Record workflowConnectorConfig : Type := mkWorkflowConnectorConfig {
  wc_workflowName : string;
  wc_parallelCount : Z
}.

Record connectorConfig : Type := mkConnectorConfig {
  cc_name : string;
  cc_parallelCount : Z
}.

Record Workflow : Type := mkWorkflow {
  Name : string;
  ctx : option Context;
  cancel : option CancelFunc;
  defaultErrBackOff : Duration;
  calledRun : bool;
  (* [sync.Once]: true once [Do] has run its function *)
  once : bool;
  consumers : gmap StatusType (list consumerConfig);
  (* the field [timeouts]; the plain name is taken by its type *)
  timeouts_ : gmap StatusType timeouts;
  workflowConnectorConfigs : list workflowConnectorConfig;
  connectorConfigs : list connectorConfig;
  internalState : gmap string State;
  debugMode : bool
}.

(** What a [go f(...)] statement of [Run] starts. *)
Inductive Goroutine : Type :=
| GoConsumer (currentStatus : StatusType) (p : consumerConfig) (shard total : Z)
| GoTimeoutPoller (status : StatusType) (t : timeouts)
| GoTimeoutAutoInserterConsumer (status : StatusType) (t : timeouts)
| GoWorkflowConnectorConsumer (config : workflowConnectorConfig) (shard total : Z)
| GoConnectorConsumer (config : connectorConfig) (shard total : Z).

(** Lines 102-110: the goroutines started for one consumer configuration. *)
Definition launch_consumer (fuel : nat) (currentStatus : StatusType)
    (p : consumerConfig) : option (list Goroutine) :=
  if ParallelCount p <? 2 then
    Some [GoConsumer currentStatus p 1 1]
  else
    for_shards fuel (GoConsumer currentStatus p) 1 (ParallelCount p).

Definition launch_workflow_connector (fuel : nat)
    (config : workflowConnectorConfig) : option (list Goroutine) :=
  if wc_parallelCount config <? 2 then
    Some [GoWorkflowConnectorConsumer config 1 1]
  else
    for_shards fuel (GoWorkflowConnectorConsumer config) 1 (wc_parallelCount config).

Definition launch_connector (fuel : nat)
    (config : connectorConfig) : option (list Goroutine) :=
  if cc_parallelCount config <? 2 then
    Some [GoConnectorConsumer config 1 1]
  else
    for_shards fuel (GoConnectorConsumer config) 1 (cc_parallelCount config).

Definition launch_timeout (entry : StatusType * timeouts) : list Goroutine :=
  [GoTimeoutPoller entry.1 entry.2; GoTimeoutAutoInserterConsumer entry.1 entry.2].

(** The function handed to [w.once.Do]: the assignments to [w], then the
    four [range] loops.  Go leaves the iteration order of a map open;
    [map_to_list] stands for the order of one particular execution. *)
Definition Run_body (fuel : nat) (w : Workflow) (parent : Context) (h : CtxHeap)
  : option (Workflow * CtxHeap * list Goroutine) :=
  let '(c, cancelFn, h') := WithCancel parent h in
  let w' :=
    mkWorkflow (Name w) (Some c) (Some cancelFn) (defaultErrBackOff w) true true
      (consumers w) (timeouts_ w) (workflowConnectorConfigs w)
      (connectorConfigs w) (internalState w) (debugMode w) in
  gs1 ← launch_each
          (λ entry : StatusType * list consumerConfig,
             launch_each (launch_consumer fuel entry.1) entry.2)
          (map_to_list (consumers w));
  let gs2 := map_to_list (timeouts_ w) ≫= launch_timeout in
  gs3 ← launch_each (launch_workflow_connector fuel) (workflowConnectorConfigs w);
  gs4 ← launch_each (launch_connector fuel) (connectorConfigs w);
  Some (w', h', gs1 ++ gs2 ++ gs3 ++ gs4).

(** [Run]: a second [once.Do] does not call its function. *)
Definition Run (fuel : nat) (w : Workflow) (parent : Context) (h : CtxHeap)
  : option (Workflow * CtxHeap * list Goroutine) :=
  if once w then Some (w, h, []) else Run_body fuel w parent h.

(** *** Notions used to state the properties of [Run] *)

(** A parallel count the counting loop gets through within the fuel: the
    counter [i] reaches [n + 1] without wrapping. *)
Definition fits (fuel : nat) (n : Z) : Prop :=
  n < max_int ∧ (Z.to_nat n < fuel)%nat.

Definition runnable (fuel : nat) (w : Workflow) : Prop :=
  map_Forall (λ _ cfgs, Forall (λ p, fits fuel (ParallelCount p)) cfgs) (consumers w)
  ∧ Forall (λ c, fits fuel (wc_parallelCount c)) (workflowConnectorConfigs w)
  ∧ Forall (λ c, fits fuel (cc_parallelCount c)) (connectorConfigs w).

(** The consumer processors among the goroutines, for one status. *)
Definition consumer_of (s : StatusType) (g : Goroutine) : bool :=
  match g with
  | GoConsumer s' _ _ _ => bool_decide (s' = s)
  | _ => false
  end.

(** The consumer processors one configuration calls for: shards [1..N] of
    [N] for a parallel count [N >= 2], and shard 1 of 1 below that. *)
Definition shards_of (s : StatusType) (p : consumerConfig) : list Goroutine :=
  if decide (2 ≤ ParallelCount p) then
    (λ i, GoConsumer s p i (ParallelCount p)) <$> seqZ 1 (ParallelCount p)
  else [GoConsumer s p 1 1].

(** Further calls of [Run], one after the other, with what they launch. *)
Fixpoint Run_again (calls : list (nat * Context)) (w : Workflow) (h : CtxHeap)
  : option (Workflow * CtxHeap * list Goroutine) :=
  match calls with
  | [] => Some (w, h, [])
  | (fuel, parent) :: calls' =>
      match Run fuel w parent h with
      | None => None
      | Some (w', h', gs) =>
          match Run_again calls' w' h' with
          | None => None
          | Some (w'', h'', gs') => Some (w'', h'', gs ++ gs')
          end
      end
  end.

(** *** A sample workflow

    Status 1 has a step sharded three ways, status 2 an unsharded step;
    status 1 also has a timeout, and there is one connector of each kind. *)
Definition sample_step1 : consumerConfig := mkConsumerConfig 3 "step1".
Definition sample_step2 : consumerConfig := mkConsumerConfig 0 "step2".

Definition sample_workflow : Workflow :=
  mkWorkflow "sample" None None 1000000000 false false
    (<[1 := [sample_step1]]> (<[2 := [sample_step2]]> ∅))
    (<[1 := mkTimeouts [("timer", "timeout")]]> ∅)
    [mkWorkflowConnectorConfig "other" 2]
    [mkConnectorConfig "source" 1]
    ∅ false.

Definition empty_heap : CtxHeap := mkCtxHeap ∅ 0.

(** The sample workflow after its first [Run]. *)
Definition sample_started : Workflow :=
  mkWorkflow "sample" (Some (Derived 0 Background)) (Some 0%nat)
    1000000000 true true (consumers sample_workflow)
    (timeouts_ sample_workflow)
    (workflowConnectorConfigs sample_workflow)
    (connectorConfigs sample_workflow) ∅ false.

Definition sample_goroutines : list Goroutine :=
  [GoConsumer 2 sample_step2 1 1;
   GoConsumer 1 sample_step1 1 3;
   GoConsumer 1 sample_step1 2 3;
   GoConsumer 1 sample_step1 3 3;
   GoTimeoutPoller 1 (mkTimeouts [("timer", "timeout")]);
   GoTimeoutAutoInserterConsumer 1 (mkTimeouts [("timer", "timeout")]);
   GoWorkflowConnectorConsumer (mkWorkflowConnectorConfig "other" 2) 1 2;
   GoWorkflowConnectorConsumer (mkWorkflowConnectorConfig "other" 2) 2 2;
   GoConnectorConsumer (mkConnectorConfig "source" 1) 1 1].

(** *** The role-leased loop [run] *)

(** What the loop does to the world around it, in order. *)
Inductive Event : Type :=
| EvUpdateState (processName : string) (s : State)
| EvLogInfo (msg role processName : string)
| EvLogError (msg : string) (err : error)
| EvAwait (role : string)
| EvSleep (d : Duration)
| EvProcess (leased : Context)
| EvProcessErrorsInc (workflowName processName : string)
| EvLeaseDone (leased : Context)
| EvTimeAfter (d : Duration)
| EvCancel (cancelFn : CancelFunc).

(** What the world answers during one pass through the loop body: whether
    the root context is done at the head of the loop, what
    [scheduler.Await] returns, what [process] returns, and which case of
    the final [select] fires first.  An answer to a question the pass
    never asks is ignored. *)
Record Turn : Type := mkTurn {
  root_done : bool;
  await_ctx : Context;
  await_cancel : CancelFunc;
  await_err : option error;
  process_err : option error;
  lease_done_first : bool
}.

Inductive Flow : Type :=
| Continue
| Return.

(** One pass through the body of the [for] loop (lines 151-201). *)
Definition run_iter (w : Workflow) (role processName : string)
    (errBackOff : Duration) (t : Turn) : list Event * Flow :=
  if root_done t then
    (if debugMode w then [EvLogInfo "shutting down" role processName] else [],
     Return)
  else
    if IsAny_Canceled (await_err t) then
      ([EvAwait role], Return)
    else
      match await_err t with
      | Some err =>
          ([EvAwait role;
            EvLogError "error awaiting role" err;
            EvSleep errBackOff],
           Continue)
      | None =>
          let started :=
            [EvAwait role;
             EvUpdateState processName StateRunning;
             EvProcess (await_ctx t)] in
          if IsAny_Canceled (process_err t) then
            (started, Continue)
          else
            match process_err t with
            | Some err =>
                let failed :=
                  started ++
                  [EvLogError "process error" err;
                   EvProcessErrorsInc (Name w) processName] in
                if lease_done_first t then
                  (failed ++ [EvLeaseDone (await_ctx t); EvCancel (await_cancel t)],
                   Continue)
                else
                  (failed ++ [EvTimeAfter errBackOff; EvCancel (await_cancel t)],
                   Continue)
            | None =>
                (started ++ [EvCancel (await_cancel t)], Continue)
            end
      end.

(** The [for] loop, driven by the answers of successive passes.  When the
    answers run out the loop is still running ([Continue]). *)
Fixpoint run_loop (w : Workflow) (role processName : string)
    (errBackOff : Duration) (turns : list Turn) : list Event * Flow :=
  match turns with
  | [] => ([], Continue)
  | t :: turns' =>
      match run_iter w role processName errBackOff t with
      | (evs, Return) => (evs, Return)
      | (evs, Continue) =>
          let rest := run_loop w role processName errBackOff turns' in
          (evs ++ rest.1, rest.2)
      end
  end.

(** [run]: report Idle, loop, and on return run the deferred report of
    Shutdown. *)
Definition run (w : Workflow) (role processName : string)
    (errBackOff : Duration) (turns : list Turn) : list Event * Flow :=
  let looped := run_loop w role processName errBackOff turns in
  (EvUpdateState processName StateIdle ::
   looped.1 ++
   match looped.2 with
   | Return => [EvUpdateState processName StateShutdown]
   | Continue => []
   end,
   looped.2).

(** Modelled from the spec: [updateState] is not among the sources; the
    internal-state map is mutated only through it, one process name at a
    time, under the mutex. *)
Definition updateState (processName : string) (s : State)
    (states : gmap string State) : gmap string State :=
  <[processName := s]> states.

(** The effect of a trace on the internal-state map. *)
Definition apply_event (states : gmap string State) (e : Event)
  : gmap string State :=
  match e with
  | EvUpdateState processName s => updateState processName s states
  | _ => states
  end.

Definition apply_events (states : gmap string State) (evs : list Event)
  : gmap string State :=
  foldl apply_event states evs.

(** The states a trace has reported for a process, oldest first, and the
    one in force at the end. *)
Definition reported (processName : string) (evs : list Event) : list State :=
  omap (λ e, match e with
             | EvUpdateState n s => if decide (n = processName) then Some s else None
             | _ => None
             end) evs.

(** *** [Stop] *)

(** Lines 216-224: the processes of a snapshot that are neither Unknown
    nor Shutdown.  The count is bounded by the number of entries of a map
    held in memory, so the [int] counter cannot wrap. *)
Definition runningProcesses (states : gmap string State) : nat :=
  map_fold (λ _ state n,
              match state with
              | StateUnknown | StateShutdown => n
              | _ => S n
              end) 0%nat states.

(** The waiting loop.  Modelled from the spec: [States] is not among the
    sources; each call returns a snapshot of the internal-state map, which
    the processes keep mutating meanwhile.  [obs] lists the snapshots of
    successive calls; the result counts the calls made when the loop
    returns, [None] while it is still spinning. *)
Fixpoint Stop_wait (polls : nat) (obs : list (gmap string State)) : option nat :=
  match obs with
  | [] => None
  | states :: obs' =>
      if Nat.eqb (runningProcesses states) 0 then Some (S polls)
      else Stop_wait (S polls) obs'
  end.

Inductive StopOutcome : Type :=
| Returned (h : CtxHeap) (polls : nat)
| Spinning (h : CtxHeap).

Definition Stop (w : Workflow) (h : CtxHeap) (obs : list (gmap string State))
  : StopOutcome :=
  match cancel w with
  | None => Returned h 0
  | Some cancelFn =>
      let h' := call_cancel cancelFn h in
      match Stop_wait 0 obs with
      | Some polls => Returned h' polls
      | None => Spinning h'
      end
  end.

(** *** Notions used to state the properties of [Stop] *)

(** An event some execution of [run] produces. *)
Definition run_event (e : Event) : Prop :=
  ∃ w role processName errBackOff turns,
    e ∈ (run w role processName errBackOff turns).1.

(** The internal-state maps the processes can bring about: the map starts
    empty (it is made so when the builder is created) and changes only
    by what executions of [run], interleaved in any way, report. *)
Inductive reachable : gmap string State → Prop :=
| reachable_new : reachable ∅
| reachable_step (states : gmap string State) (e : Event) :
    reachable states → run_event e → reachable (apply_event states e).

(** No process name is mapped to a state other than Shutdown. *)
Definition all_shutdown (states : gmap string State) : Prop :=
  map_Forall (λ _ s, s = StateShutdown) states.

(** *** Sample executions of [run]

    A lease is granted and the process completes cleanly; at the head of
    the next pass the root context is live ([sample_again]) or has been
    cancelled ([sample_stop]). *)
Definition sample_lease : Context := Derived 1 (Derived 0 Background).

Definition sample_clean : Turn :=
  mkTurn false sample_lease 1%nat None None false.
Definition sample_again : Turn :=
  mkTurn false (Derived 2 (Derived 0 Background)) 2%nat None None false.
Definition sample_stop : Turn :=
  mkTurn true Background 0%nat None None false.

Definition sample_running : gmap string State :=
  apply_events ∅ (run sample_started "role" "process" 1000 [sample_clean]).1.

Definition sample_stopped : gmap string State :=
  apply_events ∅
    (run sample_started "role" "process" 1000 [sample_clean; sample_stop]).1.

(** *** Two readings of the loop contract, as the spec words them *)

(** After a clean completion the lease is released and the role
    requested again at once, whatever the next pass finds. *)
Definition rerequests_after_clean_return : Prop :=
  ∀ (w : Workflow) (role processName : string) (errBackOff : Duration)
    (t next : Turn) (rest : list Turn),
    root_done t = false → await_err t = None → process_err t = None →
    ∃ evs,
      (run_loop w role processName errBackOff (t :: next :: rest)).1
      = [EvAwait role;
         EvUpdateState processName StateRunning;
         EvProcess (await_ctx t);
         EvCancel (await_cancel t);
         EvAwait role] ++ evs.

(** Whenever a lease is requested, Idle is the state last reported. *)
Definition idle_before_every_lease : Prop :=
  ∀ (w : Workflow) (role processName : string) (errBackOff : Duration)
    (turns : list Turn) (pre post : list Event),
    (run w role processName errBackOff turns).1 = pre ++ EvAwait role :: post →
    last (reported processName pre) = Some StateIdle.

(** *** The store facade [update] *)

(** The record behind the pointer [wr]: the fields the wire format keeps
    (the deprecated [is_start] and [is_end] carry no meaning). *)
Record WireRecord : Type := mkWireRecord {
  ID : Z;
  RunID : string;
  WorkflowName : string;
  ForeignID : string;
  Object : string;
  Status : Z;
  RunState : Z
}.

Definition Header : Type := string.

(** Modelled from the spec: the header constants are not among the
    sources; the spec names the four headers every published event
    carries. *)
Definition HeaderWorkflowForeignID : Header := "workflow-foreign-id".
Definition HeaderWorkflowName : Header := "workflow-name".
Definition HeaderTopic : Header := "topic".
Definition HeaderRunID : Header := "run-id".

(** Modelled from the spec: [Topic] is not among the sources; the topic
    of a workflow and a status is the exact string
    [<workflow_name>-<status_int>]. *)
Definition Topic (workflowName : string) (status : Z) : string :=
  workflowName +:+ "-" +:+ pretty status.

(** The calls made on the event streamer and on the producer it hands
    out, and what an implementation answers to them. *)
Inductive StreamerCall : Type :=
| NewProducer (topic : string)
| Send (topic : string) (id : Z) (statusType : Z) (headers : gmap Header string)
| Close (topic : string).

Record EventStreamer : Type := mkEventStreamer {
  send_result : string → Z → Z → gmap Header string → option error;
  close_result : string → option error
}.

(** The memory [update] works on: the record [wr] points to, and the
    calls made so far. *)
Record Memory : Type := mkMemory {
  wr : WireRecord;
  calls : list StreamerCall
}.

(** The continuation handed to [store.Store] (lines 234-253). *)
Definition publish (streamer : EventStreamer) (id : Z) (σ : Memory)
  : option error * Memory :=
  let r := wr σ in
  let r := mkWireRecord id (RunID r) (WorkflowName r) (ForeignID r)
             (Object r) (Status r) (RunState r) in
  let topic := Topic (WorkflowName r) (Status r) in
  let headers : gmap Header string := ∅ in
  let headers := <[HeaderWorkflowForeignID := ForeignID r]> headers in
  let headers := <[HeaderWorkflowName := WorkflowName r]> headers in
  let headers := <[HeaderTopic := topic]> headers in
  let headers := <[HeaderRunID := RunID r]> headers in
  let σ1 :=
    mkMemory r (calls σ ++ [NewProducer topic; Send topic (ID r) (Status r) headers]) in
  match send_result streamer topic (ID r) (Status r) headers with
  | Some err => (Some err, σ1)
  | None => (close_result streamer topic, mkMemory r (calls σ1 ++ [Close topic]))
  end.

(** A [RecordStore] implementation: given the continuation, it decides
    whether, when and with which identifier to call it. *)
Definition RecordStore : Type :=
  (Z → Memory → option error * Memory) → Memory → option error * Memory.

Definition update (streamer : EventStreamer) (store : RecordStore) (σ : Memory)
  : option error * Memory :=
  store (publish streamer) σ.

(** A store that assigns the sequence identifier [id] and publishes. *)
Definition store_assigning (id : Z) : RecordStore :=
  λ publishFn σ, publishFn id σ.

End Engine.

(** ** builder.go *)

Module DSL.

Definition Status : Type := Z.

(** Interface values handed to the builder ([EventStreamer],
    [RecordStore], [RoleScheduler], [TimeoutStore], [clock.Clock],
    [Logger]): [None] is the nil interface. *)
Definition Iface : Type := option string.

(** The option set the functional options write into.  Its declaration is
    not among the sources; these are the fields builder.go reads. *)
Module options.
Record t : Type := mk {
  pollingFrequency : Duration;
  parallelCount : Z;
  errBackOff : Duration;
  lag : Duration;
  lagAlert : Duration;
  pauseAfterErrCount : Z
}.
(** [var o options] *)
Definition zero : t := mk 0 0 0 0 0 0.
End options.

(** [type Option func(o *options)]: an option writes into the set it is
    given. *)
Definition Option : Type := options.t → options.t.

(** [for _, opt := range opts { opt(&o) }] *)
Definition apply_opts {A : Type} (opts : list (A → A)) (o : A) : A :=
  foldl (λ acc opt, opt acc) o opts.

Module consumerConfig.
Record t : Type := mk {
  consumer : FuncRef;
  pollingFrequency : Duration;
  parallelCount : Z;
  errBackOff : Duration;
  lag : Duration;
  lagAlert : Duration;
  pauseAfterErrCount : Z
}.
Definition zero : t := mk "" 0 0 0 0 0 0.
End consumerConfig.

Record callback : Type := mkCallback {
  CallbackFunc : FuncRef
}.

Record timeout : Type := mkTimeout {
  TimerFunc : FuncRef;
  TimeoutFunc : FuncRef
}.

Module timeouts.
Record t : Type := mk {
  pollingFrequency : Duration;
  errBackOff : Duration;
  lagAlert : Duration;
  pauseAfterErrCount : Z;
  transitions : list timeout
}.
Definition zero : t := mk 0 0 0 0 [].
End timeouts.

Record pausedRecordsRetry : Type := mkPausedRecordsRetry {
  enabled : bool;
  resumeAfter : Duration
}.

(** The outbox configuration is copied by [Build] and never inspected; its
    declaration is not among the sources. *)
Definition outboxConfig : Type := string.

Module Workflow.
Record t : Type := mk {
  name : string;
  clock : Iface;
  eventStreamer : Iface;
  recordStore : Iface;
  timeoutStore : Iface;
  scheduler : Iface;
  customDelete : option FuncRef;
  consumers : gmap Status consumerConfig.t;
  callback : gmap Status (list callback);
  timeouts : gmap Status timeouts.t;
  statusGraph : list (Z * Z);
  defaultOpts : options.t;
  outboxConfig : outboxConfig;
  pausedRecordsRetry : pausedRecordsRetry;
  logger_debugMode : bool;
  logger_inner : Iface
}.
End Workflow.

(** A call on the builder either completes, leaving a result and the
    workflow as it now is, or panics, leaving the workflow as it was when
    the panic was raised. *)
Inductive outcome (A : Type) : Type :=
| Done (a : A) (w : Workflow.t)
| Panic (msg : string) (w : Workflow.t).
Arguments Done {A} a w.
Arguments Panic {A} msg w.

(** [NewBuilder]: the maps are made empty; nothing else is set (the error
    counter, the run-state hooks and the internal-state map play no part
    in what follows). *)
Definition NewBuilder (name : string) : Workflow.t :=
  Workflow.mk name (Some "clock.RealClock") None None None None None
    ∅ ∅ ∅ [] options.zero "" (mkPausedRecordsRetry false 0) false
    (Some "os.Stdout").

(** Modelled from the spec: [internal/graph] is not among the sources;
    the status graph is directed and gains one edge per declared
    transition. *)
Definition AddTransition (from to : Z) (g : list (Z * Z)) : list (Z * Z) :=
  g ++ [(from, to)].

Definition add_transitions (from : Status) (allowedDestinations : list Status)
    (g : list (Z * Z)) : list (Z * Z) :=
  foldl (λ g to, AddTransition from to g) g allowedDestinations.

Definition with_statusGraph (g : list (Z * Z)) (w : Workflow.t) : Workflow.t :=
  Workflow.mk (Workflow.name w) (Workflow.clock w) (Workflow.eventStreamer w)
    (Workflow.recordStore w) (Workflow.timeoutStore w) (Workflow.scheduler w)
    (Workflow.customDelete w) (Workflow.consumers w) (Workflow.callback w)
    (Workflow.timeouts w) g (Workflow.defaultOpts w) (Workflow.outboxConfig w)
    (Workflow.pausedRecordsRetry w) (Workflow.logger_debugMode w)
    (Workflow.logger_inner w).

Definition with_consumers (m : gmap Status consumerConfig.t) (w : Workflow.t)
  : Workflow.t :=
  Workflow.mk (Workflow.name w) (Workflow.clock w) (Workflow.eventStreamer w)
    (Workflow.recordStore w) (Workflow.timeoutStore w) (Workflow.scheduler w)
    (Workflow.customDelete w) m (Workflow.callback w)
    (Workflow.timeouts w) (Workflow.statusGraph w) (Workflow.defaultOpts w)
    (Workflow.outboxConfig w) (Workflow.pausedRecordsRetry w)
    (Workflow.logger_debugMode w) (Workflow.logger_inner w).

Definition with_callback (m : gmap Status (list callback)) (w : Workflow.t)
  : Workflow.t :=
  Workflow.mk (Workflow.name w) (Workflow.clock w) (Workflow.eventStreamer w)
    (Workflow.recordStore w) (Workflow.timeoutStore w) (Workflow.scheduler w)
    (Workflow.customDelete w) (Workflow.consumers w) m
    (Workflow.timeouts w) (Workflow.statusGraph w) (Workflow.defaultOpts w)
    (Workflow.outboxConfig w) (Workflow.pausedRecordsRetry w)
    (Workflow.logger_debugMode w) (Workflow.logger_inner w).

Definition with_timeouts (m : gmap Status timeouts.t) (w : Workflow.t)
  : Workflow.t :=
  Workflow.mk (Workflow.name w) (Workflow.clock w) (Workflow.eventStreamer w)
    (Workflow.recordStore w) (Workflow.timeoutStore w) (Workflow.scheduler w)
    (Workflow.customDelete w) (Workflow.consumers w) (Workflow.callback w)
    m (Workflow.statusGraph w) (Workflow.defaultOpts w)
    (Workflow.outboxConfig w) (Workflow.pausedRecordsRetry w)
    (Workflow.logger_debugMode w) (Workflow.logger_inner w).

Module stepUpdater.
Record t : Type := mk { from : Status }.
End stepUpdater.

Module timeoutUpdater.
Record t : Type := mk { from : Status }.
End timeoutUpdater.

Module buildOptions.
Record t : Type := mk {
  clock : Iface;
  customDelete : option FuncRef;
  debugMode : bool;
  defaultOptions : options.t;
  outboxConfig : outboxConfig;
  timeoutStore : Iface;
  logger : Iface;
  autoPauseRetry : pausedRecordsRetry
}.
End buildOptions.

(** [type BuildOption func(w *buildOptions)] *)
Definition BuildOption : Type := buildOptions.t → buildOptions.t.

Definition WithTimeoutStore (s : Iface) : BuildOption :=
  λ w, buildOptions.mk (buildOptions.clock w) (buildOptions.customDelete w)
         (buildOptions.debugMode w) (buildOptions.defaultOptions w)
         (buildOptions.outboxConfig w) s (buildOptions.logger w)
         (buildOptions.autoPauseRetry w).

Definition WithClock (c : Iface) : BuildOption :=
  λ bo, buildOptions.mk c (buildOptions.customDelete bo)
          (buildOptions.debugMode bo) (buildOptions.defaultOptions bo)
          (buildOptions.outboxConfig bo) (buildOptions.timeoutStore bo)
          (buildOptions.logger bo) (buildOptions.autoPauseRetry bo).

Definition WithDebugMode : BuildOption :=
  λ bo, buildOptions.mk (buildOptions.clock bo) (buildOptions.customDelete bo)
          true (buildOptions.defaultOptions bo)
          (buildOptions.outboxConfig bo) (buildOptions.timeoutStore bo)
          (buildOptions.logger bo) (buildOptions.autoPauseRetry bo).

Definition WithLogger (l : Iface) : BuildOption :=
  λ bo, buildOptions.mk (buildOptions.clock bo) (buildOptions.customDelete bo)
          (buildOptions.debugMode bo) (buildOptions.defaultOptions bo)
          (buildOptions.outboxConfig bo) (buildOptions.timeoutStore bo)
          l (buildOptions.autoPauseRetry bo).

Definition WithDefaultOptions (opts : list Option) : BuildOption :=
  λ bo, buildOptions.mk (buildOptions.clock bo) (buildOptions.customDelete bo)
          (buildOptions.debugMode bo) (apply_opts opts options.zero)
          (buildOptions.outboxConfig bo) (buildOptions.timeoutStore bo)
          (buildOptions.logger bo) (buildOptions.autoPauseRetry bo).

Section Builder.

(** [Status.String], supplied with the user's status type. *)
Variable String : Status → string.

(** The defaults [defaultBuildOptions] starts from; the three functions
    that compute them are not among the sources. *)
Variable defaultOutboxConfig : outboxConfig.
Variable defaultOptions : options.t.
Variable defaultPausedRecordsRetry : pausedRecordsRetry.

Definition AddStep (from : Status) (c : FuncRef)
    (allowedDestinations : list Status) (w : Workflow.t)
  : outcome stepUpdater.t :=
  match Workflow.consumers w !! from with
  | Some _ =>
      Panic ("'AddStep(" +:+ String from +:+
             ",' already exists. Only one Step can be configured to consume the status")
            w
  | None =>
      let w :=
        with_statusGraph
          (add_transitions from allowedDestinations (Workflow.statusGraph w)) w in
      let p := consumerConfig.mk c 0 0 0 0 0 0 in
      let w := with_consumers (<[from := p]> (Workflow.consumers w)) w in
      Done (stepUpdater.mk from) w
  end.

(** [stepUpdater.WithOptions] *)
Definition stepUpdater_WithOptions (s : stepUpdater.t) (opts : list Option)
    (w : Workflow.t) : Workflow.t :=
  let consumer :=
    default consumerConfig.zero (Workflow.consumers w !! stepUpdater.from s) in
  let consumerOpts := apply_opts opts options.zero in
  let consumer :=
    consumerConfig.mk (consumerConfig.consumer consumer)
      (options.pollingFrequency consumerOpts)
      (options.parallelCount consumerOpts)
      (options.errBackOff consumerOpts)
      (options.lag consumerOpts)
      (options.lagAlert consumerOpts)
      (options.pauseAfterErrCount consumerOpts) in
  with_consumers (<[stepUpdater.from s := consumer]> (Workflow.consumers w)) w.

Definition AddCallback (from : Status) (fn : FuncRef)
    (allowedDestinations : list Status) (w : Workflow.t) : Workflow.t :=
  let c := mkCallback fn in
  let w :=
    with_statusGraph
      (add_transitions from allowedDestinations (Workflow.statusGraph w)) w in
  with_callback
    (<[from := default [] (Workflow.callback w !! from) ++ [c]]> (Workflow.callback w))
    w.

Definition AddTimeout (from : Status) (timer tf : FuncRef)
    (allowedDestinations : list Status) (w : Workflow.t)
  : timeoutUpdater.t * Workflow.t :=
  let ts := default timeouts.zero (Workflow.timeouts w !! from) in
  let t := mkTimeout timer tf in
  let w :=
    with_statusGraph
      (add_transitions from allowedDestinations (Workflow.statusGraph w)) w in
  let ts :=
    timeouts.mk (timeouts.pollingFrequency ts) (timeouts.errBackOff ts)
      (timeouts.lagAlert ts) (timeouts.pauseAfterErrCount ts)
      (timeouts.transitions ts ++ [t]) in
  (timeoutUpdater.mk from, with_timeouts (<[from := ts]> (Workflow.timeouts w)) w).

(** [timeoutUpdater.WithOptions] *)
Definition timeoutUpdater_WithOptions (s : timeoutUpdater.t) (opts : list Option)
    (w : Workflow.t) : outcome unit :=
  let timeout :=
    default timeouts.zero (Workflow.timeouts w !! timeoutUpdater.from s) in
  let timeoutOpts := apply_opts opts options.zero in
  if negb (options.parallelCount timeoutOpts =? 0) then
    Panic "Cannot configure parallel timeout" w
  else if negb (options.lag timeoutOpts =? 0) then
    Panic "Cannot configure lag for timeout" w
  else
    let timeout :=
      timeouts.mk (options.pollingFrequency timeoutOpts)
        (options.errBackOff timeoutOpts)
        (options.lagAlert timeoutOpts)
        (options.pauseAfterErrCount timeoutOpts)
        (timeouts.transitions timeout) in
    Done tt
      (with_timeouts (<[timeoutUpdater.from s := timeout]> (Workflow.timeouts w)) w).

Definition defaultBuildOptions : buildOptions.t :=
  buildOptions.mk None None false defaultOptions defaultOutboxConfig None None
    defaultPausedRecordsRetry.

(** Lines 221-246 of [Build]: the assignments made before the check. *)
Definition Build_assign (eventStreamer recordStore roleScheduler : Iface)
    (bo : buildOptions.t) (w : Workflow.t) : Workflow.t :=
  Workflow.mk (Workflow.name w)
    (match buildOptions.clock bo with
     | Some c => Some c
     | None => Workflow.clock w
     end)
    eventStreamer recordStore
    (buildOptions.timeoutStore bo)
    roleScheduler
    (match buildOptions.customDelete bo with
     | Some fn => Some fn
     | None => Workflow.customDelete w
     end)
    (Workflow.consumers w) (Workflow.callback w) (Workflow.timeouts w)
    (Workflow.statusGraph w)
    (buildOptions.defaultOptions bo)
    (buildOptions.outboxConfig bo)
    (buildOptions.autoPauseRetry bo)
    (buildOptions.debugMode bo)
    (match buildOptions.logger bo with
     | Some l => Some l
     | None => Workflow.logger_inner w
     end).

(** [Build]: every assignment has been made when the check panics. *)
Definition Build (eventStreamer recordStore roleScheduler : Iface)
    (opts : list BuildOption) (w : Workflow.t) : outcome unit :=
  let bo := apply_opts opts defaultBuildOptions in
  let w := Build_assign eventStreamer recordStore roleScheduler bo w in
  if bool_decide (0 < size (Workflow.timeouts w))%nat
     && bool_decide (Workflow.timeoutStore w = None) then
    Panic "cannot configure timeouts without providing TimeoutStore for workflow" w
  else
    Done tt w.

(** *** Builder programs

    A step or a timeout is added and the updater it returns is used for
    zero or more calls of [WithOptions]; callbacks are added as they
    come.  A program stops at its first panic. *)
Inductive call : Type :=
| CallAddStep (from : Status) (c : FuncRef) (allowedDestinations : list Status)
    (withOptions : list (list Option))
| CallAddCallback (from : Status) (fn : FuncRef) (allowedDestinations : list Status)
| CallAddTimeout (from : Status) (timer tf : FuncRef)
    (allowedDestinations : list Status) (withOptions : list (list Option)).

Fixpoint timeout_options (s : timeoutUpdater.t) (withOptions : list (list Option))
    (w : Workflow.t) : outcome unit :=
  match withOptions with
  | [] => Done tt w
  | opts :: rest =>
      match timeoutUpdater_WithOptions s opts w with
      | Done _ w' => timeout_options s rest w'
      | Panic msg w' => Panic msg w'
      end
  end.

Definition exec (c : call) (w : Workflow.t) : outcome unit :=
  match c with
  | CallAddStep from c allowedDestinations withOptions =>
      match AddStep from c allowedDestinations w with
      | Done s w' =>
          Done tt (foldl (λ w opts, stepUpdater_WithOptions s opts w) w' withOptions)
      | Panic msg w' => Panic msg w'
      end
  | CallAddCallback from fn allowedDestinations =>
      Done tt (AddCallback from fn allowedDestinations w)
  | CallAddTimeout from timer tf allowedDestinations withOptions =>
      let '(s, w') := AddTimeout from timer tf allowedDestinations w in
      timeout_options s withOptions w'
  end.

Fixpoint exec_all (cs : list call) (w : Workflow.t) : outcome unit :=
  match cs with
  | [] => Done tt w
  | c :: cs' =>
      match exec c w with
      | Done _ w' => exec_all cs' w'
      | Panic msg w' => Panic msg w'
      end
  end.

End Builder.

(** *** Notions used to state the properties of the builder *)

(** The statuses a program adds steps for, each with its step function,
    in the order of the calls. *)
Definition step_calls (cs : list call) : list (Status * FuncRef) :=
  omap (λ c, match c with
             | CallAddStep from c _ _ => Some (from, c)
             | _ => None
             end) cs.

(** The step function configured for each status. *)
Definition step_functions (w : Workflow.t) : gmap Status FuncRef :=
  consumerConfig.consumer <$> Workflow.consumers w.

(** *** Samples *)

(** Options that write one field each, as the functional options of the
    package do. *)
Definition sample_parallel (n : Z) : Option :=
  λ o, options.mk (options.pollingFrequency o) n (options.errBackOff o)
         (options.lag o) (options.lagAlert o) (options.pauseAfterErrCount o).

Definition sample_lag (d : Duration) : Option :=
  λ o, options.mk (options.pollingFrequency o) (options.parallelCount o)
         (options.errBackOff o) d (options.lagAlert o)
         (options.pauseAfterErrCount o).

Definition sample_polling (d : Duration) : Option :=
  λ o, options.mk d (options.parallelCount o) (options.errBackOff o)
         (options.lag o) (options.lagAlert o) (options.pauseAfterErrCount o).

Definition sample_String (s : Status) : string := pretty s.

Definition sample_program : list call :=
  [CallAddStep 1 "step1" [2] [[sample_parallel 3]];
   CallAddCallback 2 "callback2" [3];
   CallAddStep 2 "step2" [3] [];
   CallAddTimeout 1 "timer" "timeout" [3] [[sample_polling 1000]]].

(** The workflow the sample program configures. *)
Definition sample_configured : Workflow.t :=
  match exec_all sample_String sample_program (NewBuilder "sample") with
  | Done _ w => w
  | Panic _ w => w
  end.

End DSL.

(** ** Further notions for workflow.go *)

Module EngineExt.

Import Engine.

(** The timeout processors among the goroutines, for one status. *)
Definition timeout_of (s : StatusType) (g : Goroutine) : bool :=
  match g with
  | GoTimeoutPoller s' _ | GoTimeoutAutoInserterConsumer s' _ => bool_decide (s' = s)
  | _ => false
  end.

Definition is_workflow_connector (g : Goroutine) : bool :=
  match g with
  | GoWorkflowConnectorConsumer _ _ _ => true
  | _ => false
  end.

Definition is_connector (g : Goroutine) : bool :=
  match g with
  | GoConnectorConsumer _ _ _ => true
  | _ => false
  end.

(** The processors one connector configuration calls for.  [Run] hands
    each of them the address of its loop variable; the configuration
    recorded with a processor is what that variable holds when the
    processor is launched. *)
Definition workflow_connector_shards (c : workflowConnectorConfig)
  : list Goroutine :=
  if decide (2 ≤ wc_parallelCount c) then
    (λ i, GoWorkflowConnectorConsumer c i (wc_parallelCount c))
      <$> seqZ 1 (wc_parallelCount c)
  else [GoWorkflowConnectorConsumer c 1 1].

Definition connector_shards (c : connectorConfig) : list Goroutine :=
  if decide (2 ≤ cc_parallelCount c) then
    (λ i, GoConnectorConsumer c i (cc_parallelCount c))
      <$> seqZ 1 (cc_parallelCount c)
  else [GoConnectorConsumer c 1 1].

(** Contexts made by [WithCancel] on a heap carry identities the heap has
    handed out, and only those can have been cancelled. *)
Fixpoint ids_below (n : nat) (c : Context) : Prop :=
  match c with
  | Background => True
  | Derived id parent => (id < n)%nat ∧ ids_below n parent
  end.

Definition heap_wf (h : CtxHeap) : Prop :=
  ∀ id, id ∈ cancelled h → (id < next_id h)%nat.

(** A sample workflow whose step asks for [MaxInt] shards. *)
Definition sample_unbounded : Workflow :=
  mkWorkflow "sample" None None 1000000000 false false
    (<[1 := [mkConsumerConfig max_int "step1"]]> ∅) ∅ [] [] ∅ false.

(** A pass in which the loop returns: it finds the root context
    cancelled, or its Await returns a cancellation. *)
Definition stops (t : Turn) : bool :=
  root_done t || IsAny_Canceled (await_err t).

Definition is_await (e : Event) : bool :=
  match e with EvAwait _ => true | _ => false end.

Definition is_process (e : Event) : bool :=
  match e with EvProcess _ => true | _ => false end.

Definition is_release (e : Event) : bool :=
  match e with EvCancel _ => true | _ => false end.

Definition is_process_error (e : Event) : bool :=
  match e with EvProcessErrorsInc _ _ => true | _ => false end.

Definition is_backoff (e : Event) : bool :=
  match e with EvSleep _ | EvTimeAfter _ => true | _ => false end.

(** How many events of a kind a trace holds. *)
Definition count (P : Event → bool) (evs : list Event) : nat :=
  length (List.filter P evs).

(** Answers of further sample passes: the scheduler fails; the process
    fails; the process is interrupted by a cancellation; the Await is
    cancelled. *)
Definition sample_await_failed : Turn :=
  mkTurn false Background 0%nat (Some (Failure "scheduler down")) None false.
Definition sample_failed : Turn :=
  mkTurn false sample_lease 1%nat None (Some (Failure "handler failed")) false.
Definition sample_interrupted : Turn :=
  mkTurn false sample_lease 1%nat None (Some (Wrap "step" Canceled)) false.
Definition sample_await_cancelled : Turn :=
  mkTurn false Background 0%nat (Some Canceled) None false.

(** A snapshot [Stop] takes for final: every process in it is Unknown or
    Shutdown. *)
Definition quiescent (states : gmap string State) : Prop :=
  map_Forall (λ _ s, s = StateUnknown ∨ s = StateShutdown) states.

End EngineExt.

(** ** More of builder.go *)

Module DSLExt.

Import DSL.

(** *** Build options for the retry of paused records *)

Definition WithPauseRetry (resumeAfter : Duration) : BuildOption :=
  λ bo, buildOptions.mk (buildOptions.clock bo) (buildOptions.customDelete bo)
          (buildOptions.debugMode bo) (buildOptions.defaultOptions bo)
          (buildOptions.outboxConfig bo) (buildOptions.timeoutStore bo)
          (buildOptions.logger bo)
          (mkPausedRecordsRetry true resumeAfter).

Definition DisablePauseRetry : BuildOption :=
  λ bo, buildOptions.mk (buildOptions.clock bo) (buildOptions.customDelete bo)
          (buildOptions.debugMode bo) (buildOptions.defaultOptions bo)
          (buildOptions.outboxConfig bo) (buildOptions.timeoutStore bo)
          (buildOptions.logger bo)
          (mkPausedRecordsRetry false
             (resumeAfter (buildOptions.autoPauseRetry bo))).

(** The build options by name ([WithCustomDelete] apart, whose closure
    calls the serialisation functions, which are not among the sources),
    and the functions they stand for. *)
Inductive build_option : Type :=
| OptTimeoutStore (s : Iface)
| OptClock (c : Iface)
| OptDebugMode
| OptLogger (l : Iface)
| OptDefaultOptions (opts : list Option)
| OptPauseRetry (resumeAfter : Duration)
| OptDisablePauseRetry.

Definition denote (o : build_option) : BuildOption :=
  match o with
  | OptTimeoutStore s => WithTimeoutStore s
  | OptClock c => WithClock c
  | OptDebugMode => WithDebugMode
  | OptLogger l => WithLogger l
  | OptDefaultOptions opts => WithDefaultOptions opts
  | OptPauseRetry resumeAfter => WithPauseRetry resumeAfter
  | OptDisablePauseRetry => DisablePauseRetry
  end.



(** *** What a builder program registers *)

Definition callbacks_for (S : Status) (cs : list call) : list callback :=
  omap (λ c, match c with
             | CallAddCallback from fn _ =>
                 if decide (from = S) then Some (mkCallback fn) else None
             | _ => None
             end) cs.

Definition timeouts_for (S : Status) (cs : list call) : list timeout :=
  omap (λ c, match c with
             | CallAddTimeout from timer tf _ _ =>
                 if decide (from = S) then Some (mkTimeout timer tf) else None
             | _ => None
             end) cs.

Definition adds_timeout (c : call) : bool :=
  match c with CallAddTimeout _ _ _ _ _ => true | _ => false end.

(** The timers and actions configured for a status. *)
Definition transitions_of (w : Workflow.t) (S : Status) : list timeout :=
  timeouts.transitions (default timeouts.zero (Workflow.timeouts w !! S)).

(** The callbacks configured for a status. *)
Definition callbacks_of (w : Workflow.t) (S : Status) : list callback :=
  default [] (Workflow.callback w !! S).

(** *** Connectors

    [AddConnector] allocates a configuration, appends the pointer to
    [b.workflow.connectorConfigs] and hands the same pointer to the
    updater, whose [WithOptions] writes through it.  [objects] holds the
    configurations allocated so far, each at the address that is its
    position; [connectorConfigs] is the slice of pointers. *)
Module connectorConfig.
Record t : Type := mk {
  name : string;
  constructor : FuncRef;
  connectorFn : FuncRef;
  parallelCount : Z;
  errBackOff : Duration;
  lag : Duration;
  lagAlert : Duration
}.
End connectorConfig.

Record Connectors : Type := mkConnectors {
  objects : list connectorConfig.t;
  connectorConfigs : list nat
}.

Inductive connector_outcome : Type :=
| Added (config : nat) (st : Connectors)
| ConnectorPanic (msg : string) (st : Connectors).

(** [config.name == name], for the configuration a pointer leads to. *)
Definition named (st : Connectors) (name : string) (p : nat) : bool :=
  match objects st !! p with
  | Some config => bool_decide (connectorConfig.name config = name)
  | None => false
  end.

Definition AddConnector (name : string) (csc cf : FuncRef) (st : Connectors)
  : connector_outcome :=
  if existsb (named st name) (connectorConfigs st) then
    ConnectorPanic "connector names need to be unique" st
  else
    let config := length (objects st) in
    Added config
      (mkConnectors
         (objects st ++ [connectorConfig.mk name csc cf 0 0 0 0])
         (connectorConfigs st ++ [config])).

(** [connectorUpdater.WithOptions], for the updater holding [config]. *)
Definition connectorUpdater_WithOptions (config : nat) (opts : list Option)
    (st : Connectors) : Connectors :=
  let connectorOpts := apply_opts opts options.zero in
  mkConnectors
    (alter (λ c, connectorConfig.mk (connectorConfig.name c)
                   (connectorConfig.constructor c)
                   (connectorConfig.connectorFn c)
                   (options.parallelCount connectorOpts)
                   (options.errBackOff connectorOpts)
                   (options.lag connectorOpts)
                   (options.lagAlert connectorOpts))
       config (objects st))
    (connectorConfigs st).

(** Programs over connectors: a connector is added, or options are set
    through the updater of the connector added [k]-th (counting from 0).
    An updater exists only for a connector that has been added. *)
Inductive connector_call : Type :=
| CallAddConnector (name : string) (csc cf : FuncRef)
| CallConnectorOptions (config : nat) (opts : list Option).

Definition exec_connector (c : connector_call) (st : Connectors)
  : connector_outcome :=
  match c with
  | CallAddConnector name csc cf => AddConnector name csc cf st
  | CallConnectorOptions config opts =>
      Added config (connectorUpdater_WithOptions config opts st)
  end.

Fixpoint exec_connectors (cs : list connector_call) (st : Connectors)
  : option Connectors :=
  match cs with
  | [] => Some st
  | c :: cs' =>
      match exec_connector c st with
      | Added _ st' => exec_connectors cs' st'
      | ConnectorPanic _ _ => None
      end
  end.

(** The connectors of a workflow, as [Run] finds them: the
    configurations the slice points to, in order. *)
Definition connectors_of (st : Connectors) : list connectorConfig.t :=
  omap (λ p, objects st !! p) (connectorConfigs st).

Definition added_names (cs : list connector_call) : list string :=
  omap (λ c, match c with
             | CallAddConnector name _ _ => Some name
             | _ => None
             end) cs.

(** Every configuration allocated is listed, in the order of
    allocation. *)
Definition listed (st : Connectors) : Prop :=
  connectorConfigs st = seq 0 (length (objects st)).

Definition no_connectors : Connectors := mkConnectors [] [].

(** The connectors the sample program below configures. *)
Definition sample_connected : Connectors :=
  connectorUpdater_WithOptions 0 [sample_parallel 4; sample_lag 30]
    (mkConnectors
       [connectorConfig.mk "payments" "newPayments" "onPayment" 0 0 0 0;
        connectorConfig.mk "refunds" "newRefunds" "onRefund" 0 0 0 0]
       [0%nat; 1%nat]).

Definition sample_connectors : list connector_call :=
  [CallAddConnector "payments" "newPayments" "onPayment";
   CallAddConnector "refunds" "newRefunds" "onRefund";
   CallConnectorOptions 0 [sample_parallel 4; sample_lag 30]].

End DSLExt.

(** * Properties of workflow.go *)

Module EngineFacts.

Import Engine.

(** ** Integers and the counting loop *)

Lemma wrap_int_id (z : Z) : min_int ≤ z ≤ max_int → wrap_int z = z.
Proof.
  unfold wrap_int, min_int, max_int, int_bits. simpl Z.sub.
  change (2 ^ 63) with 9223372036854775808.
  change (2 ^ 64) with 18446744073709551616.
  intros Hz. rewrite Z.mod_small; lia.
Qed.

Lemma for_shards_seqZ {A : Type} (launch : Z → Z → A) (fuel : nat) :
  ∀ i total : Z,
    min_int ≤ i → i ≤ total + 1 → total < max_int →
    (Z.to_nat (total + 1 - i) < fuel)%nat →
    for_shards fuel launch i total
    = Some ((λ k, launch k total) <$> seqZ i (total + 1 - i)).
Proof.
  induction fuel as [|fuel IH]; intros i total Hlo Hhi Hmax Hfuel; [lia|].
  simpl. destruct (Z.leb_spec i total) as [Hle|Hgt].
  - rewrite wrap_int_id by (unfold min_int, max_int, int_bits in *; simpl in *; lia).
    rewrite IH by (unfold min_int in *; lia).
    rewrite (seqZ_cons i) by lia. simpl.
    replace (Z.succ i) with (i + 1) by lia.
    replace (Z.pred (total + 1 - i)) with (total + 1 - (i + 1)) by lia.
    reflexivity.
  - rewrite seqZ_nil by lia. reflexivity.
Qed.

Lemma launch_consumer_shards (fuel : nat) (s : StatusType) (p : consumerConfig) :
  fits fuel (ParallelCount p) →
  launch_consumer fuel s p = Some (shards_of s p).
Proof.
  intros [Hmax Hfuel]. unfold launch_consumer, shards_of.
  destruct (Z.ltb_spec (ParallelCount p) 2) as [Hlt|Hge].
  - destruct (decide (2 ≤ ParallelCount p)); [lia|reflexivity].
  - destruct (decide (2 ≤ ParallelCount p)); [|lia].
    rewrite for_shards_seqZ; unfold min_int, int_bits; simpl; try lia.
    replace (ParallelCount p + 1 - 1) with (ParallelCount p) by lia.
    reflexivity.
Qed.

Lemma launch_connector_returns (fuel : nat) (c : connectorConfig) :
  fits fuel (cc_parallelCount c) → is_Some (launch_connector fuel c).
Proof.
  intros [Hmax Hfuel]. unfold launch_connector.
  destruct (Z.ltb_spec (cc_parallelCount c) 2); [eauto|].
  rewrite for_shards_seqZ; unfold min_int, int_bits; simpl; eauto; lia.
Qed.

Lemma launch_workflow_connector_returns (fuel : nat) (c : workflowConnectorConfig) :
  fits fuel (wc_parallelCount c) → is_Some (launch_workflow_connector fuel c).
Proof.
  intros [Hmax Hfuel]. unfold launch_workflow_connector.
  destruct (Z.ltb_spec (wc_parallelCount c) 2); [eauto|].
  rewrite for_shards_seqZ; unfold min_int, int_bits; simpl; eauto; lia.
Qed.

Lemma launch_each_Some {A B : Type} (f : A → option (list B)) (g : A → list B)
    (l : list A) :
  Forall (λ a, f a = Some (g a)) l → launch_each f l = Some (l ≫= g).
Proof.
  induction 1 as [|a l Ha _ IH]; [reflexivity|].
  simpl. rewrite Ha, IH. reflexivity.
Qed.

Lemma launch_each_is_Some {A B : Type} (f : A → option (list B)) (l : list A) :
  Forall (λ a, is_Some (f a)) l → is_Some (launch_each f l).
Proof.
  induction 1 as [|a l [gs Ha] _ [gs' IH]]; simpl; [eauto|].
  rewrite Ha, IH. eauto.
Qed.

Lemma for_shards_launched {A : Type} (launch : Z → Z → A) (fuel : nat) :
  ∀ (i total : Z) (l : list A),
    for_shards fuel launch i total = Some l →
    Forall (λ g, ∃ k, g = launch k total) l.
Proof.
  induction fuel as [|fuel IH]; intros i total l; simpl; [discriminate|].
  destruct (i <=? total).
  - destruct (for_shards fuel launch (wrap_int (i + 1)) total) as [l'|] eqn:E;
      simpl; [|discriminate].
    intros [= <-]. constructor; [eauto|]. eapply IH, E.
  - intros [= <-]. constructor.
Qed.

(** ** Selecting the consumers of one status among the goroutines *)

Lemma filter_bind {A B : Type} (P : B → bool) (f : A → list B) (l : list A) :
  List.filter P (l ≫= f) = l ≫= (λ a, List.filter P (f a)).
Proof.
  induction l as [|a l IH]; [reflexivity|].
  rewrite !bind_cons, List.filter_app, IH. reflexivity.
Qed.

Lemma filter_none {B : Type} (P : B → bool) (l : list B) :
  Forall (λ b, P b = false) l → List.filter P l = [].
Proof.
  induction 1 as [|b l Hb _ IH]; [reflexivity|]. simpl. rewrite Hb. exact IH.
Qed.

Lemma filter_all {B : Type} (P : B → bool) (l : list B) :
  Forall (λ b, P b = true) l → List.filter P l = l.
Proof.
  induction 1 as [|b l Hb _ IH]; [reflexivity|]. simpl. rewrite Hb, IH. reflexivity.
Qed.

Lemma shards_of_status (s s' : StatusType) (p : consumerConfig) :
  Forall (λ g, consumer_of s g = bool_decide (s' = s)) (shards_of s' p).
Proof.
  unfold shards_of. destruct (decide (2 ≤ ParallelCount p)).
  - apply Forall_fmap, Forall_forall. intros i _. reflexivity.
  - repeat constructor.
Qed.

Lemma filter_shards_of (s s' : StatusType) (cfgs : list consumerConfig) :
  List.filter (consumer_of s) (cfgs ≫= shards_of s')
  = if decide (s' = s) then cfgs ≫= shards_of s' else [].
Proof.
  destruct (decide (s' = s)) as [->|Hne].
  - apply filter_all, Forall_bind, Forall_forall. intros p _.
    eapply Forall_impl; [apply (shards_of_status s s)|].
    intros g ->. by rewrite bool_decide_eq_true.
  - apply filter_none, Forall_bind, Forall_forall. intros p _.
    eapply Forall_impl; [apply (shards_of_status s s')|].
    intros g ->. by rewrite bool_decide_eq_false.
Qed.

(** Keys of a map are distinct, so at most one entry answers for [s]. *)
Lemma bind_other_keys {V B : Type} (F : V → list B) (s : StatusType)
    (l : list (StatusType * V)) :
  s ∉ l.*1 →
  l ≫= (λ e, if decide (e.1 = s) then F e.2 else []) = [].
Proof.
  induction l as [|[k v] l IH]; [reflexivity|].
  rewrite fmap_cons, not_elem_of_cons, bind_cons. simpl. intros [Hk Hl].
  destruct (decide (k = s)); [congruence|]. by apply IH.
Qed.

Lemma bind_select_key {V B : Type} (F : V → list B) (s : StatusType) (v : V)
    (l : list (StatusType * V)) :
  NoDup l.*1 → (s, v) ∈ l →
  l ≫= (λ e, if decide (e.1 = s) then F e.2 else []) = F v.
Proof.
  induction l as [|[k v'] l IH]; [by rewrite elem_of_nil|].
  rewrite fmap_cons, NoDup_cons, elem_of_cons, bind_cons. simpl.
  intros [Hk Hl] [[= <- <-]|Hin].
  - rewrite decide_True by done. rewrite bind_other_keys by done.
    by rewrite app_nil_r.
  - destruct (decide (k = s)) as [->|Hne].
    + exfalso. apply Hk. apply list_elem_of_fmap. by exists (s, v).
    + by apply IH.
Qed.

Lemma launch_each_Forall {A B : Type} (P : B → Prop) (f : A → option (list B))
    (l : list A) :
  (∀ a gs, f a = Some gs → Forall P gs) →
  ∀ gs, launch_each f l = Some gs → Forall P gs.
Proof.
  intros Hf. induction l as [|a l IH]; simpl; intros gs.
  - intros [= <-]. constructor.
  - destruct (f a) as [gs1|] eqn:Ea; [|discriminate].
    destruct (launch_each f l) as [gs2|]; [|discriminate].
    intros [= <-]. apply Forall_app. eauto.
Qed.

Lemma workflow_connectors_not_consumers (fuel : nat) (s : StatusType)
    (l : list workflowConnectorConfig) (gs : list Goroutine) :
  launch_each (launch_workflow_connector fuel) l = Some gs →
  List.filter (consumer_of s) gs = [].
Proof.
  intros Hgs. apply filter_none.
  eapply launch_each_Forall; [|exact Hgs].
  intros c gs'. unfold launch_workflow_connector.
  destruct (wc_parallelCount c <? 2).
  - intros [= <-]. repeat constructor.
  - intros Hl. eapply Forall_impl; [eapply for_shards_launched, Hl|].
    intros g [k ->]. reflexivity.
Qed.

Lemma connectors_not_consumers (fuel : nat) (s : StatusType)
    (l : list connectorConfig) (gs : list Goroutine) :
  launch_each (launch_connector fuel) l = Some gs →
  List.filter (consumer_of s) gs = [].
Proof.
  intros Hgs. apply filter_none.
  eapply launch_each_Forall; [|exact Hgs].
  intros c gs'. unfold launch_connector.
  destruct (cc_parallelCount c <? 2).
  - intros [= <-]. repeat constructor.
  - intros Hl. eapply Forall_impl; [eapply for_shards_launched, Hl|].
    intros g [k ->]. reflexivity.
Qed.

Lemma timeouts_not_consumers (s : StatusType) (l : list (StatusType * timeouts)) :
  List.filter (consumer_of s) (l ≫= launch_timeout) = [].
Proof.
  apply filter_none, Forall_bind, Forall_forall. intros e _.
  repeat constructor.
Qed.

Lemma consumers_of_status (s : StatusType)
    (m : gmap StatusType (list consumerConfig)) :
  List.filter (consumer_of s)
    (map_to_list m ≫= (λ e, e.2 ≫= shards_of e.1))
  = default [] (m !! s) ≫= shards_of s.
Proof.
  rewrite filter_bind.
  rewrite (list_bind_ext _
             (λ e, if decide (e.1 = s) then e.2 ≫= shards_of s else [])
             _ (map_to_list m)); [| |reflexivity].
  - destruct (m !! s) as [cfgs|] eqn:Hs; simpl.
    + apply (bind_select_key (λ cfgs, cfgs ≫= shards_of s)).
      * apply NoDup_fst_map_to_list.
      * by apply elem_of_map_to_list.
    + apply (bind_other_keys (λ cfgs, cfgs ≫= shards_of s)).
      intros Hin. apply list_elem_of_fmap in Hin as ([k v] & -> & Hin).
      apply elem_of_map_to_list in Hin. simpl in Hs. congruence.
  - intros [k cfgs]. simpl. rewrite filter_shards_of.
    destruct (decide (k = s)) as [->|]; reflexivity.
Qed.

(** ** [Run] *)

(** C5.  When [Run] is first called on a workflow whose parallel counts
    the counting loops get through, it returns, and for every status the
    consumer processors it has launched are, configuration by
    configuration, shards 1 to N of N where the parallel count N is at
    least 2, and the single shard 1 of 1 where it is below 2. *)
Theorem Run_consumer_shards (fuel : nat) (w : Workflow) (parent : Context)
    (h : CtxHeap) :
  once w = false →
  runnable fuel w →
  ∃ w' h' gs,
    Run fuel w parent h = Some (w', h', gs)
    ∧ ∀ s : StatusType,
        List.filter (consumer_of s) gs
        = default [] (consumers w !! s) ≫=
            (λ p, if decide (2 ≤ ParallelCount p) then
                    (λ i, GoConsumer s p i (ParallelCount p))
                      <$> seqZ 1 (ParallelCount p)
                  else [GoConsumer s p 1 1]).
Proof.
  intros Honce (Hc & Hwc & Hcc). unfold Run, Run_body. rewrite Honce. simpl.
  rewrite (launch_each_Some _ (λ e, e.2 ≫= shards_of e.1)).
  2:{ apply Forall_forall. intros [k cfgs] Hin. simpl.
      apply launch_each_Some.
      apply elem_of_map_to_list in Hin. specialize (Hc k cfgs Hin). simpl in Hc.
      eapply Forall_impl; [exact Hc|]. intros p Hp.
      by apply launch_consumer_shards. }
  destruct (launch_each_is_Some (launch_workflow_connector fuel)
              (workflowConnectorConfigs w)) as [gs3 Hgs3].
  { eapply Forall_impl; [exact Hwc|]. intros c.
    apply launch_workflow_connector_returns. }
  destruct (launch_each_is_Some (launch_connector fuel) (connectorConfigs w))
    as [gs4 Hgs4].
  { eapply Forall_impl; [exact Hcc|]. intros c. apply launch_connector_returns. }
  rewrite Hgs3, Hgs4. simpl. do 3 eexists. split; [reflexivity|].
  intros s. rewrite !List.filter_app.
  rewrite (workflow_connectors_not_consumers _ _ _ _ Hgs3).
  rewrite (connectors_not_consumers _ _ _ _ Hgs4).
  rewrite timeouts_not_consumers, !app_nil_r.
  apply consumers_of_status.
Qed.

Example Run_sample :
  Run 4 sample_workflow Background empty_heap
  = Some (sample_started, mkCtxHeap ∅ 1, sample_goroutines).
Proof. vm_compute. reflexivity. Qed.

Lemma sample_workflow_runnable : runnable 4 sample_workflow.
Proof.
  unfold runnable, fits, max_int, int_bits. simpl. split; [|split].
  - apply map_Forall_insert_2; [repeat constructor; simpl; lia|].
    apply map_Forall_insert_2; [repeat constructor; simpl; lia|].
    apply map_Forall_empty.
  - repeat constructor; simpl; lia.
  - repeat constructor; simpl; lia.
Qed.

Lemma Run_consumer_shards_witness :
  ∃ w' h' gs,
    Run 4 sample_workflow Background empty_heap = Some (w', h', gs)
    ∧ ∀ s : StatusType,
        List.filter (consumer_of s) gs
        = default [] (consumers sample_workflow !! s) ≫=
            (λ p, if decide (2 ≤ ParallelCount p) then
                    (λ i, GoConsumer s p i (ParallelCount p))
                      <$> seqZ 1 (ParallelCount p)
                  else [GoConsumer s p 1 1]).
Proof.
  apply (Run_consumer_shards 4 sample_workflow Background empty_heap).
  - reflexivity.
  - exact sample_workflow_runnable.
Defined.

Lemma Run_after_once (fuel : nat) (w : Workflow) (parent : Context) (h : CtxHeap) :
  once w = true → Run fuel w parent h = Some (w, h, []).
Proof. intros Honce. unfold Run. by rewrite Honce. Qed.

Lemma Run_sets_once (fuel : nat) (w : Workflow) (parent : Context) (h : CtxHeap)
    (w1 : Workflow) (h1 : CtxHeap) (gs : list Goroutine) :
  Run fuel w parent h = Some (w1, h1, gs) → once w1 = true.
Proof.
  unfold Run, Run_body. destruct (once w) eqn:Honce; simpl.
  - by intros [= <- _ _].
  - destruct (launch_each _ (map_to_list (consumers w))); simpl; [|discriminate].
    destruct (launch_each _ (workflowConnectorConfigs w)); simpl; [|discriminate].
    destruct (launch_each _ (connectorConfigs w)); simpl; [|discriminate].
    by intros [= <- _ _].
Qed.

Lemma Run_first_sets (fuel : nat) (w : Workflow) (parent : Context) (h : CtxHeap)
    (w1 : Workflow) (h1 : CtxHeap) (gs : list Goroutine) :
  once w = false →
  Run fuel w parent h = Some (w1, h1, gs) →
  ctx w1 = Some (Derived (next_id h) parent)
  ∧ cancel w1 = Some (next_id h)
  ∧ calledRun w1 = true.
Proof.
  unfold Run, Run_body. intros ->. simpl.
  destruct (launch_each _ (map_to_list (consumers w))); simpl; [|discriminate].
  destruct (launch_each _ (workflowConnectorConfigs w)); simpl; [|discriminate].
  destruct (launch_each _ (connectorConfigs w)); simpl; [|discriminate].
  by intros [= <- _ _].
Qed.

(** C9.  After a first call of [Run] that has returned, the context, the
    cancel function and the [calledRun] flag are the ones that call set,
    and every further call, whatever its arguments and however many there
    are, launches nothing and leaves the workflow as it is. *)
Theorem Run_idempotent (fuel : nat) (w : Workflow) (parent : Context)
    (h : CtxHeap) (w1 : Workflow) (h1 : CtxHeap) (gs : list Goroutine) :
  once w = false →
  Run fuel w parent h = Some (w1, h1, gs) →
  (ctx w1 = Some (Derived (next_id h) parent)
   ∧ cancel w1 = Some (next_id h)
   ∧ calledRun w1 = true)
  ∧ (∀ fuel' parent' h', Run fuel' w1 parent' h' = Some (w1, h', []))
  ∧ (∀ calls h', Run_again calls w1 h' = Some (w1, h', [])).
Proof.
  intros Honce HRun. split; [by eapply Run_first_sets|].
  pose proof (Run_sets_once _ _ _ _ _ _ _ HRun) as Hdone.
  split; [intros; by apply Run_after_once|].
  intros cs. induction cs as [|[fuel' parent'] cs IH]; intros h'; [reflexivity|].
  simpl. rewrite Run_after_once by done. by rewrite IH.
Qed.

Lemma Run_idempotent_witness :
  (ctx sample_started = Some (Derived (next_id empty_heap) Background)
   ∧ cancel sample_started = Some (next_id empty_heap)
   ∧ calledRun sample_started = true)
  ∧ (∀ fuel' parent' h',
       Run fuel' sample_started parent' h' = Some (sample_started, h', []))
  ∧ (∀ calls h', Run_again calls sample_started h' = Some (sample_started, h', [])).
Proof.
  apply (Run_idempotent 4 sample_workflow Background empty_heap
           sample_started (mkCtxHeap ∅ 1) sample_goroutines).
  - reflexivity.
  - vm_compute. reflexivity.
Defined.

(** ** What [run] reports *)

Lemma run_iter_reports (w : Workflow) (role processName : string)
    (errBackOff : Duration) (t : Turn) (n : string) (s : State) :
  EvUpdateState n s ∈ (run_iter w role processName errBackOff t).1 →
  n = processName ∧ s = StateRunning.
Proof.
  unfold run_iter.
  destruct (root_done t), (debugMode w), (await_err t) as [e|],
    (process_err t) as [e'|], (lease_done_first t); simpl;
    repeat match goal with
           | |- context [is_canceled ?x] => destruct (is_canceled x); simpl
           end;
    rewrite ?elem_of_cons, ?elem_of_nil;
    intros H; repeat destruct H as [H|H];
    try discriminate H; try contradiction; by injection H as -> ->.
Qed.

Lemma run_loop_reports (w : Workflow) (role processName : string)
    (errBackOff : Duration) (turns : list Turn) (n : string) (s : State) :
  EvUpdateState n s ∈ (run_loop w role processName errBackOff turns).1 →
  n = processName ∧ s = StateRunning.
Proof.
  induction turns as [|t turns IH]; simpl; [by rewrite elem_of_nil|].
  destruct (run_iter w role processName errBackOff t) as [evs []] eqn:Hiter;
    simpl; rewrite ?elem_of_app; intros Hin.
  - destruct Hin as [Hin|Hin]; [|by apply IH].
    apply (run_iter_reports w role processName errBackOff t). by rewrite Hiter.
  - apply (run_iter_reports w role processName errBackOff t). by rewrite Hiter.
Qed.

Lemma run_reports (w : Workflow) (role processName : string)
    (errBackOff : Duration) (turns : list Turn) (n : string) (s : State) :
  EvUpdateState n s ∈ (run w role processName errBackOff turns).1 →
  n = processName ∧ (s = StateIdle ∨ s = StateRunning ∨ s = StateShutdown).
Proof.
  unfold run. simpl. rewrite elem_of_cons, elem_of_app.
  intros [[= -> ->]|[Hin|Hin]]; [by auto| |].
  - apply run_loop_reports in Hin as [-> ->]. auto.
  - destruct (run_loop _ _ _ _ _).2; [by rewrite elem_of_nil in Hin|].
    rewrite list_elem_of_singleton in Hin. injection Hin as -> ->. auto.
Qed.

Lemma reachable_known (states : gmap string State) :
  reachable states → map_Forall (λ _ s, s ≠ StateUnknown) states.
Proof.
  induction 1 as [|states e _ IH (w & role & pn & bo & turns & Hin)].
  - apply map_Forall_empty.
  - destruct e; simpl; try exact IH.
    apply run_reports in Hin as [_ Hs].
    apply map_Forall_insert_2; [|exact IH].
    destruct Hs as [->|[->| ->]]; discriminate.
Qed.

Lemma reachable_apply_events (states : gmap string State) (evs : list Event) :
  reachable states → Forall run_event evs → reachable (apply_events states evs).
Proof.
  intros Hr Hevs. revert states Hr.
  induction Hevs as [|e evs He _ IH]; intros states Hr; [exact Hr|].
  apply IH. by constructor.
Qed.

Lemma reachable_run (w : Workflow) (role processName : string)
    (errBackOff : Duration) (turns : list Turn) :
  reachable (apply_events ∅ (run w role processName errBackOff turns).1).
Proof.
  apply reachable_apply_events; [constructor|].
  apply Forall_forall. intros e He. by exists w, role, processName, errBackOff, turns.
Qed.

(** ** [Stop] *)

Lemma runningProcesses_zero (states : gmap string State) :
  runningProcesses states = 0%nat
  ↔ map_Forall (λ _ s, s = StateUnknown ∨ s = StateShutdown) states.
Proof.
  unfold runningProcesses.
  apply (map_fold_weak_ind
           (λ n m, n = 0%nat
                   ↔ map_Forall (λ _ s, s = StateUnknown ∨ s = StateShutdown) m)).
  - split; [intros _; apply map_Forall_empty|done].
  - intros name st m n Hfresh IH.
    rewrite map_Forall_insert by done.
    destruct st.
    + split; [intros Hn; split; [by left|by apply IH]|intros [_ Hm]; by apply IH].
    + split; [intros Hn; split; [by right|by apply IH]|intros [_ Hm]; by apply IH].
    + split; [discriminate|intros [[?|?] _]; discriminate].
    + split; [discriminate|intros [[?|?] _]; discriminate].
Qed.

Lemma reachable_quiescent (states : gmap string State) :
  reachable states →
  runningProcesses states = 0%nat ↔ all_shutdown states.
Proof.
  intros Hr%reachable_known. rewrite runningProcesses_zero. unfold all_shutdown.
  split; intros H name st Hst.
  - destruct (H name st Hst) as [->| ->]; [|done]. by destruct (Hr name _ Hst).
  - right. by apply (H name).
Qed.

Lemma Stop_wait_returns (obs : list (gmap string State)) :
  ∀ n polls : nat,
    Stop_wait n obs = Some polls
    ↔ ∃ pre states post,
        obs = pre ++ states :: post
        ∧ polls = (n + S (length pre))%nat
        ∧ runningProcesses states = 0%nat
        ∧ Forall (λ m, runningProcesses m ≠ 0%nat) pre.
Proof.
  induction obs as [|m obs IH]; intros n polls; simpl.
  - split; [discriminate|]. intros (pre & ? & ? & Hobs & _). by destruct pre.
  - destruct (Nat.eqb_spec (runningProcesses m) 0) as [Hz|Hnz].
    + split.
      * intros [= <-]. exists [], m, obs. repeat split; [simpl; lia|done|constructor].
      * intros ([|m' pre] & states & post & Hobs & -> & Hq & Hpre).
        -- simpl. f_equal. lia.
        -- injection Hobs as <- _. by inversion Hpre.
    + rewrite IH. split.
      * intros (pre & states & post & -> & -> & Hq & Hpre).
        exists (m :: pre), states, post. repeat split; [simpl; lia|done|by constructor].
      * intros ([|m' pre] & states & post & Hobs & -> & Hq & Hpre).
        -- injection Hobs as <- _. done.
        -- injection Hobs as <- ->. inversion Hpre; subst.
           exists pre, states, post. repeat split; [simpl; lia|done|done].
Qed.

Lemma Stop_wait_spins (obs : list (gmap string State)) :
  ∀ n : nat,
    Stop_wait n obs = None ↔ Forall (λ m, runningProcesses m ≠ 0%nat) obs.
Proof.
  induction obs as [|m obs IH]; intros n; simpl.
  - split; [constructor|done].
  - destruct (Nat.eqb_spec (runningProcesses m) 0) as [Hz|Hnz].
    + split; [discriminate|]. by inversion 1.
    + rewrite IH. split; [by constructor|by inversion 1].
Qed.

(** C10.  On a workflow whose cancel function is nil, as it is until
    [Run] is called, [Stop] returns at once: nothing is cancelled (the
    contexts are as before) and the internal state is not read once. *)
Theorem Stop_before_Run (w : Workflow) (h : CtxHeap)
    (obs : list (gmap string State)) :
  cancel w = None → Stop w h obs = Returned h 0.
Proof. intros Hnil. unfold Stop. by rewrite Hnil. Qed.

Lemma Stop_before_Run_witness :
  Stop sample_workflow empty_heap [sample_running] = Returned empty_heap 0.
Proof.
  apply (Stop_before_Run sample_workflow empty_heap [sample_running]).
  reflexivity.
Defined.

Lemma call_cancel_done (cancelFn : CancelFunc) (parent : Context) (h : CtxHeap) :
  ctx_done (call_cancel cancelFn h) (Derived cancelFn parent) = true.
Proof.
  simpl. apply orb_true_iff. left. apply bool_decide_eq_true. set_solver.
Qed.

(** C1.  Once [Run] has been called, [Stop] cancels the root context and
    then reads the internal state again and again.  Over snapshots the
    processes can bring about: if it returns, the root context is done
    and the snapshot it returned on, the first of its kind, maps no
    process name to a state other than Shutdown; as long as every
    snapshot has such a process it keeps waiting; and it does return
    once a snapshot has none. *)
Theorem Stop_waits_for_shutdown (fuel : nat) (w0 : Workflow) (parent : Context)
    (h0 : CtxHeap) (w : Workflow) (h : CtxHeap) (gs : list Goroutine)
    (h1 : CtxHeap) (obs : list (gmap string State)) :
  once w0 = false →
  Run fuel w0 parent h0 = Some (w, h, gs) →
  Forall reachable obs →
  ∃ root cancelFn,
    ctx w = Some root ∧ cancel w = Some cancelFn
    ∧ (∀ h' polls,
         Stop w h1 obs = Returned h' polls →
         h' = call_cancel cancelFn h1
         ∧ ctx_done h' root = true
         ∧ ∃ pre states post,
             obs = pre ++ states :: post
             ∧ polls = S (length pre)
             ∧ all_shutdown states
             ∧ Forall (λ m, ¬ all_shutdown m) pre)
    ∧ (Forall (λ m, ¬ all_shutdown m) obs →
       Stop w h1 obs = Spinning (call_cancel cancelFn h1))
    ∧ (∀ pre states post,
         obs = pre ++ states :: post →
         all_shutdown states →
         ∃ polls, Stop w h1 obs = Returned (call_cancel cancelFn h1) polls).
Proof.
  intros Honce HRun Hobs.
  destruct (Run_first_sets _ _ _ _ _ _ _ Honce HRun) as (Hctx & Hcancel & _).
  exists (Derived (next_id h0) parent), (next_id h0).
  split; [done|]. split; [done|]. unfold Stop. rewrite Hcancel.
  split; [|split].
  - intros h' polls. destruct (Stop_wait 0 obs) as [k|] eqn:Hwait; [|discriminate].
    intros [= <- <-]. split; [done|]. split; [apply call_cancel_done|].
    apply Stop_wait_returns in Hwait as (pre & states & post & -> & -> & Hq & Hpre).
    exists pre, states, post. split; [done|]. split; [done|].
    apply Forall_app in Hobs as [Hrpre Hrst]. apply Forall_cons in Hrst as [Hrst _].
    split; [by apply reachable_quiescent|].
    apply Forall_forall. intros m Hm Hall.
    rewrite Forall_forall in Hpre, Hrpre.
    apply (Hpre m Hm). apply reachable_quiescent; auto.
  - intros Hbusy.
    assert (Stop_wait 0 obs = None) as ->; [|done].
    apply Stop_wait_spins. apply Forall_forall. intros m Hm Hz.
    rewrite Forall_forall in Hbusy, Hobs.
    apply (Hbusy m Hm). apply reachable_quiescent; auto.
  - intros pre states post -> Hall.
    destruct (Stop_wait 0 (pre ++ states :: post)) as [k|] eqn:Hwait; [by eauto|].
    apply Stop_wait_spins in Hwait.
    apply Forall_app in Hwait as [_ Hst]. apply Forall_cons in Hst as [Hst _].
    apply Forall_app in Hobs as [_ Hrst]. apply Forall_cons in Hrst as [Hrst _].
    destruct Hst. by apply reachable_quiescent.
Qed.

Lemma Stop_waits_for_shutdown_witness :
  ∃ root cancelFn,
    ctx sample_started = Some root ∧ cancel sample_started = Some cancelFn
    ∧ (∀ h' polls,
         Stop sample_started (mkCtxHeap ∅ 1) [sample_running; sample_stopped]
         = Returned h' polls →
         h' = call_cancel cancelFn (mkCtxHeap ∅ 1)
         ∧ ctx_done h' root = true
         ∧ ∃ pre states post,
             [sample_running; sample_stopped] = pre ++ states :: post
             ∧ polls = S (length pre)
             ∧ all_shutdown states
             ∧ Forall (λ m, ¬ all_shutdown m) pre)
    ∧ (Forall (λ m, ¬ all_shutdown m) [sample_running; sample_stopped] →
       Stop sample_started (mkCtxHeap ∅ 1) [sample_running; sample_stopped]
       = Spinning (call_cancel cancelFn (mkCtxHeap ∅ 1)))
    ∧ (∀ pre states post,
         [sample_running; sample_stopped] = pre ++ states :: post →
         all_shutdown states →
         ∃ polls,
           Stop sample_started (mkCtxHeap ∅ 1) [sample_running; sample_stopped]
           = Returned (call_cancel cancelFn (mkCtxHeap ∅ 1)) polls).
Proof.
  apply (Stop_waits_for_shutdown 4 sample_workflow Background empty_heap
           sample_started (mkCtxHeap ∅ 1) sample_goroutines).
  - reflexivity.
  - vm_compute. reflexivity.
  - apply Forall_cons_2; [apply reachable_run|].
    apply Forall_cons_2; [apply reachable_run|apply Forall_nil_2].
Defined.

(** [Stop] counts a process in state Unknown as stopped; the processes
    never report that state, so no reachable snapshot holds it. *)
Example Stop_passes_over_unknown :
  Stop sample_started (mkCtxHeap ∅ 1) [{[ "process" := StateUnknown ]}]
  = Returned (mkCtxHeap {[ 0%nat ]} 1) 1
  ∧ ¬ reachable {[ "process" := StateUnknown ]}.
Proof.
  split; [vm_compute; reflexivity|]. intros Hr%reachable_known.
  apply (Hr "process" StateUnknown); [apply lookup_singleton_eq|done].
Qed.

Example Stop_sample :
  Stop sample_started (mkCtxHeap ∅ 1) [sample_running; sample_stopped]
  = Returned (mkCtxHeap {[ 0%nat ]} 1) 2.
Proof. vm_compute. reflexivity. Qed.

(** ** The role-leased loop *)

Lemma run_loop_app (w : Workflow) (role processName : string)
    (errBackOff : Duration) (pre l : list Turn) :
  (run_loop w role processName errBackOff pre).2 = Continue →
  run_loop w role processName errBackOff (pre ++ l)
  = ((run_loop w role processName errBackOff pre).1
       ++ (run_loop w role processName errBackOff l).1,
     (run_loop w role processName errBackOff l).2).
Proof.
  induction pre as [|t pre IH]; simpl.
  - intros _. by destruct (run_loop w role processName errBackOff l).
  - destruct (run_iter w role processName errBackOff t) as [evs []]; simpl;
      [|discriminate].
    intros Hpre. rewrite IH by done. simpl. by rewrite app_assoc.
Qed.

Lemma run_iter_clean (w : Workflow) (role processName : string)
    (errBackOff : Duration) (t : Turn) :
  root_done t = false → await_err t = None → process_err t = None →
  run_iter w role processName errBackOff t
  = ([EvAwait role;
      EvUpdateState processName StateRunning;
      EvProcess (await_ctx t);
      EvCancel (await_cancel t)],
     Continue).
Proof. intros H1 H2 H3. unfold run_iter. by rewrite H1, H2, H3. Qed.

Lemma run_iter_root_done (w : Workflow) (role processName : string)
    (errBackOff : Duration) (t : Turn) :
  root_done t = true →
  run_iter w role processName errBackOff t
  = (if debugMode w then [EvLogInfo "shutting down" role processName] else [],
     Return).
Proof. intros H. unfold run_iter. by rewrite H. Qed.

Lemma run_iter_requests (w : Workflow) (role processName : string)
    (errBackOff : Duration) (t : Turn) :
  root_done t = false →
  ∃ evs, (run_iter w role processName errBackOff t).1 = EvAwait role :: evs.
Proof.
  intros H. unfold run_iter. rewrite H.
  destruct (IsAny_Canceled (await_err t)); [by eexists|].
  destruct (await_err t); [by eexists|].
  destruct (IsAny_Canceled (process_err t)); [by eexists|].
  destruct (process_err t); [|by eexists].
  destruct (lease_done_first t); by eexists.
Qed.

Lemma run_loop_requests (w : Workflow) (role processName : string)
    (errBackOff : Duration) (t : Turn) (rest : list Turn) :
  root_done t = false →
  ∃ evs, (run_loop w role processName errBackOff (t :: rest)).1 = EvAwait role :: evs.
Proof.
  intros H. simpl.
  destruct (run_iter_requests w role processName errBackOff t H) as [evs Hevs].
  destruct (run_iter w role processName errBackOff t) as [evs' []];
    simpl in *; subst; by eexists.
Qed.

(** C2, as amended.  In whichever pass the process function returns a nil
    error, the pass does four things and no more: it requests the lease,
    reports Running, runs the process and releases the lease; it neither
    sleeps, nor waits out the backoff, nor counts a process error.  The
    loop then starts its next pass at once: that pass requests the role
    again if it finds the root context live, and returns without
    requesting it if it finds the root context cancelled. *)
Theorem clean_return_releases_and_loops (w : Workflow)
    (role processName : string) (errBackOff : Duration)
    (pre : list Turn) (t : Turn) (rest : list Turn) :
  (run_loop w role processName errBackOff pre).2 = Continue →
  root_done t = false → await_err t = None → process_err t = None →
  (run_loop w role processName errBackOff (pre ++ t :: rest)).1
  = (run_loop w role processName errBackOff pre).1
      ++ [EvAwait role;
          EvUpdateState processName StateRunning;
          EvProcess (await_ctx t);
          EvCancel (await_cancel t)]
      ++ (run_loop w role processName errBackOff rest).1
  ∧ ∀ next rest',
      rest = next :: rest' →
      (root_done next = false →
       ∃ evs, (run_loop w role processName errBackOff rest).1 = EvAwait role :: evs)
      ∧ (root_done next = true →
         run_loop w role processName errBackOff rest
         = (if debugMode w then [EvLogInfo "shutting down" role processName] else [],
            Return)).
Proof.
  intros Hpre H1 H2 H3. split.
  - rewrite run_loop_app by done. simpl.
    by rewrite run_iter_clean.
  - intros next rest' ->. split.
    + apply run_loop_requests.
    + intros Hdone. simpl. by rewrite run_iter_root_done.
Qed.

Lemma clean_return_releases_and_loops_witness :
  (run_loop sample_started "role" "process" 1000
     ([sample_clean] ++ sample_again :: [sample_stop])).1
  = (run_loop sample_started "role" "process" 1000 [sample_clean]).1
      ++ [EvAwait "role";
          EvUpdateState "process" StateRunning;
          EvProcess (await_ctx sample_again);
          EvCancel (await_cancel sample_again)]
      ++ (run_loop sample_started "role" "process" 1000 [sample_stop]).1
  ∧ ∀ next rest',
      [sample_stop] = next :: rest' →
      (root_done next = false →
       ∃ evs,
         (run_loop sample_started "role" "process" 1000 [sample_stop]).1
         = EvAwait "role" :: evs)
      ∧ (root_done next = true →
         run_loop sample_started "role" "process" 1000 [sample_stop]
         = (if debugMode sample_started
            then [EvLogInfo "shutting down" "role" "process"] else [],
            Return)).
Proof.
  apply (clean_return_releases_and_loops sample_started "role" "process" 1000
           [sample_clean] sample_again [sample_stop]); reflexivity.
Defined.

(** C2, as stated, fails: the process returns nil and the lease is
    released, but the root context has been cancelled meanwhile, so the
    loop reports Shutdown and returns; the role is not requested again. *)
Lemma clean_return_at_shutdown :
  run sample_started "role" "process" 1000 [sample_clean; sample_stop]
  = ([EvUpdateState "process" StateIdle;
      EvAwait "role";
      EvUpdateState "process" StateRunning;
      EvProcess sample_lease;
      EvCancel 1%nat;
      EvUpdateState "process" StateShutdown],
     Return)
  ∧ ¬ rerequests_after_clean_return.
Proof.
  split; [reflexivity|]. intros Hclaim.
  destruct (Hclaim sample_started "role" "process" 1000 sample_clean sample_stop []
              eq_refl eq_refl eq_refl) as [evs Hevs].
  discriminate Hevs.
Qed.

(** ** The states the loop reports *)

Lemma last_cons_Some {A : Type} (x y : A) (l : list A) :
  last l = Some y → last (x :: l) = Some y.
Proof. destruct l; [discriminate|done]. Qed.

Lemma reported_update (processName : string) (s : State) (l : list Event) :
  reported processName (EvUpdateState processName s :: l)
  = s :: reported processName l.
Proof. unfold reported. simpl. by rewrite decide_True. Qed.

Lemma reported_running (processName : string) (l : list Event) :
  (∀ n s, EvUpdateState n s ∈ l → n = processName ∧ s = StateRunning) →
  ((EvUpdateState processName StateRunning ∉ l)
   ∧ (reported processName l = []))
  ∨ ((EvUpdateState processName StateRunning ∈ l)
     ∧ (last (reported processName l) = Some StateRunning)).
Proof.
  induction l as [|e l IH]; intros Hl.
  - left. split; [apply not_elem_of_nil|reflexivity].
  - destruct IH as [[Hnot Hnil]|[Hin Hlast]].
    { intros n s Hin. apply Hl. by right. }
    + destruct e as [n s| | | | | | | | |];
        try (left; split; [rewrite not_elem_of_cons; split; [discriminate|done]
                          |exact Hnil]).
      destruct (Hl n s) as [-> ->]; [by left|]. right. split; [by left|].
      by rewrite reported_update, Hnil.
    + right. split; [by right|].
      destruct e as [n s| | | | | | | | |]; try exact Hlast.
      destruct (Hl n s) as [-> ->]; [by left|].
      rewrite reported_update. by apply last_cons_Some.
Qed.

(** What comes before a lease request lies within the loop's own events:
    the deferred report of Shutdown is the last event of all. *)
Lemma before_lease_request (w : Workflow) (role processName : string)
    (errBackOff : Duration) (turns : list Turn) (pre post : list Event) :
  (run w role processName errBackOff turns).1 = pre ++ EvAwait role :: post →
  ∃ pre',
    pre = EvUpdateState processName StateIdle :: pre'
    ∧ ∀ n s, EvUpdateState n s ∈ pre' → n = processName ∧ s = StateRunning.
Proof.
  unfold run. simpl. destruct pre as [|e pre']; [discriminate|].
  simpl. intros [= <- Heq]. exists pre'. split; [done|].
  intros n s Hin. apply app_eq_inv in Heq as [(k & Hloop & _)|(k & -> & Hfinal)].
  - apply (run_loop_reports w role processName errBackOff turns).
    rewrite Hloop. apply elem_of_app. by left.
  - exfalso. destruct (run_loop w role processName errBackOff turns).2.
    + by destruct k.
    + destruct k as [|e [|e' k]]; try discriminate Hfinal.
Qed.

Lemma reported_app (processName : string) (l1 l2 : list Event) :
  reported processName (l1 ++ l2)
  = reported processName l1 ++ reported processName l2.
Proof. unfold reported. apply omap_app. Qed.

(** C3, as amended.  The loop reports Idle once, as its first act, and
    never again.  So at each lease request the state last reported is
    Idle as long as no lease has been granted, and Running from then on.
    Whenever the loop returns, the report of Shutdown is the last thing it
    does; and it does return, without requesting a lease, in the pass
    that finds the root context cancelled. *)
Theorem run_reports_idle_once_then_shutdown (w : Workflow)
    (role processName : string) (errBackOff : Duration) (turns : list Turn) :
  let r := run w role processName errBackOff turns in
  (∃ evs,
     r.1 = EvUpdateState processName StateIdle :: evs
     ∧ EvUpdateState processName StateIdle ∉ evs)
  ∧ (∀ pre post,
       r.1 = pre ++ EvAwait role :: post →
       ((EvUpdateState processName StateRunning ∉ pre)
        ∧ (last (reported processName pre) = Some StateIdle))
       ∨ ((EvUpdateState processName StateRunning ∈ pre)
          ∧ (last (reported processName pre) = Some StateRunning)))
  ∧ (r.2 = Return →
     last r.1 = Some (EvUpdateState processName StateShutdown)
     ∧ last (reported processName r.1) = Some StateShutdown)
  ∧ (∀ before t after,
       turns = before ++ t :: after →
       (run_loop w role processName errBackOff before).2 = Continue →
       root_done t = true →
       r = (EvUpdateState processName StateIdle ::
            (run_loop w role processName errBackOff before).1
            ++ (if debugMode w
                then [EvLogInfo "shutting down" role processName] else [])
            ++ [EvUpdateState processName StateShutdown],
            Return)).
Proof.
  cbv zeta. unfold run. cbn [fst snd]. split; [|split; [|split]].
  - eexists. split; [reflexivity|]. rewrite elem_of_app. intros [Hin|Hin].
    + apply run_loop_reports in Hin as [_ [=]].
    + destruct (run_loop _ _ _ _ _).2; [by apply elem_of_nil in Hin|].
      by apply list_elem_of_singleton in Hin.
  - intros pre post Heq.
    destruct (before_lease_request w role processName errBackOff turns pre post Heq)
      as (pre' & -> & Hpre').
    rewrite reported_update.
    destruct (reported_running processName pre' Hpre') as [[Hnot Hnil]|[Hin Hlast]].
    + left. split; [|by rewrite Hnil].
      rewrite not_elem_of_cons. split; [discriminate|done].
    + right. split; [by right|by apply last_cons_Some].
  - intros ->. split.
    + by rewrite app_comm_cons, last_snoc.
    + rewrite reported_update, reported_app, reported_update.
      change (reported processName []) with (@nil State).
      by rewrite app_comm_cons, last_snoc.
  - intros before t after -> Hbefore Hdone.
    rewrite run_loop_app by done. cbn [fst snd run_loop].
    rewrite run_iter_root_done by done. cbn [fst snd].
    by rewrite <- app_assoc.
Qed.

(** C3, as stated, fails: after a clean completion the second pass
    requests the lease while Running is still the state last reported;
    nothing reports Idle again. *)
Lemma lease_requested_while_running :
  run sample_started "role" "process" 1000 [sample_clean; sample_again]
  = ([EvUpdateState "process" StateIdle;
      EvAwait "role";
      EvUpdateState "process" StateRunning;
      EvProcess sample_lease;
      EvCancel 1%nat;
      EvAwait "role";
      EvUpdateState "process" StateRunning;
      EvProcess (Derived 2 (Derived 0 Background));
      EvCancel 2%nat],
     Continue)
  ∧ ¬ idle_before_every_lease.
Proof.
  split; [reflexivity|]. intros Hclaim.
  specialize (Hclaim sample_started "role" "process" 1000
                [sample_clean; sample_again]
                [EvUpdateState "process" StateIdle;
                 EvAwait "role";
                 EvUpdateState "process" StateRunning;
                 EvProcess sample_lease;
                 EvCancel 1%nat]
                [EvUpdateState "process" StateRunning;
                 EvProcess (Derived 2 (Derived 0 Background));
                 EvCancel 2%nat]
                eq_refl).
  vm_compute in Hclaim. discriminate Hclaim.
Qed.

(** ** The store facade *)

(** C4.  Whatever the store, the continuation [update] hands it is
    [publish].  Called with the sequence identifier the store has
    assigned, it writes that identifier into the record's ID and changes
    nothing else in the record; it sends one event, keyed by that
    identifier, on the topic of the record's workflow and status; and the
    event carries exactly the four headers workflow-foreign-id,
    workflow-name, topic and run-id, filled in from the record. *)
Theorem publish_keys_and_headers (streamer : EventStreamer) (id : Z) (σ : Memory) :
  let r := wr σ in
  let topic := Topic (WorkflowName r) (Status r) in
  (∀ store : RecordStore, update streamer store σ = store (publish streamer) σ)
  ∧ update streamer (store_assigning id) σ = publish streamer id σ
  ∧ wr (publish streamer id σ).2
    = mkWireRecord id (RunID r) (WorkflowName r) (ForeignID r) (Object r)
        (Status r) (RunState r)
  ∧ ∃ headers closing,
      calls (publish streamer id σ).2
      = calls σ ++ [NewProducer topic; Send topic id (Status r) headers] ++ closing
      ∧ (closing = [] ∨ closing = [Close topic])
      ∧ dom headers
        = {[HeaderWorkflowForeignID; HeaderWorkflowName; HeaderTopic; HeaderRunID]}
      ∧ size headers = 4%nat
      ∧ headers !! HeaderWorkflowForeignID = Some (ForeignID r)
      ∧ headers !! HeaderWorkflowName = Some (WorkflowName r)
      ∧ headers !! HeaderTopic = Some topic
      ∧ headers !! HeaderRunID = Some (RunID r).
Proof.
  cbv zeta. split; [done|]. split; [done|].
  unfold publish. cbv zeta.
  cbn [ID RunID WorkflowName ForeignID Object Status RunState].
  set (r := wr σ). set (topic := Topic (WorkflowName r) (Status r)).
  set (headers := <[HeaderRunID := _]> _).
  assert (dom headers
          = {[HeaderWorkflowForeignID; HeaderWorkflowName; HeaderTopic; HeaderRunID]})
    as Hdom.
  { unfold headers. rewrite !dom_insert_L, dom_empty_L. set_solver. }
  assert (size headers = 4%nat) as Hsize.
  { unfold headers.
    rewrite !map_size_insert_None, map_size_empty; [done|..];
      by rewrite ?lookup_insert_ne, ?lookup_empty. }
  assert (headers !! HeaderWorkflowForeignID = Some (ForeignID r)
          ∧ headers !! HeaderWorkflowName = Some (WorkflowName r)
          ∧ headers !! HeaderTopic = Some topic
          ∧ headers !! HeaderRunID = Some (RunID r)) as Hlook.
  { unfold headers. split; [|split; [|split]].
    - do 3 (rewrite lookup_insert_ne by done). apply lookup_insert_eq.
    - do 2 (rewrite lookup_insert_ne by done). apply lookup_insert_eq.
    - rewrite lookup_insert_ne by done. apply lookup_insert_eq.
    - apply lookup_insert_eq. }
  destruct (send_result streamer topic id (Status r) headers) as [err|];
    cbn [fst snd wr calls].
  - split; [reflexivity|]. exists headers, [].
    split; [by rewrite app_nil_r|]. split; [by left|].
    split; [exact Hdom|]. split; [exact Hsize|exact Hlook].
  - split; [reflexivity|]. exists headers, [Close topic].
    split; [by rewrite <- app_assoc|]. split; [by right|].
    split; [exact Hdom|]. split; [exact Hsize|exact Hlook].
Qed.

Example publish_sample :
  publish (mkEventStreamer (λ _ _ _ _, None) (λ _, None)) 42
    (mkMemory (mkWireRecord 7 "run-1" "orders" "customer-9" "" 3 2) [])
  = (None,
     mkMemory (mkWireRecord 42 "run-1" "orders" "customer-9" "" 3 2)
       [NewProducer "orders-3";
        Send "orders-3" 42 3
          (list_to_map [("workflow-foreign-id", "customer-9");
                        ("workflow-name", "orders");
                        ("topic", "orders-3");
                        ("run-id", "run-1")]);
        Close "orders-3"]).
Proof. vm_compute. reflexivity. Qed.

End EngineFacts.

(** * Properties of builder.go *)

Module DSLFacts.

Import DSL.

(** ** Timeout options *)

(** C7.  If the options handed to the timeout updater's [WithOptions]
    leave a parallel count or a lag other than zero, the call panics
    (on the parallel count first), and the workflow, its timeout
    configuration included, is as it was before the call. *)
Theorem timeout_options_rejected (s : timeoutUpdater.t) (opts : list Option)
    (w : Workflow.t) :
  options.parallelCount (apply_opts opts options.zero) ≠ 0
  ∨ options.lag (apply_opts opts options.zero) ≠ 0 →
  timeoutUpdater_WithOptions s opts w
  = Panic (if decide (options.parallelCount (apply_opts opts options.zero) = 0)
           then "Cannot configure lag for timeout"
           else "Cannot configure parallel timeout") w.
Proof.
  intros Hset. unfold timeoutUpdater_WithOptions.
  destruct (Z.eqb_spec (options.parallelCount (apply_opts opts options.zero)) 0)
    as [Hp|Hp]; simpl.
  - rewrite decide_True by done.
    destruct (Z.eqb_spec (options.lag (apply_opts opts options.zero)) 0)
      as [Hl|Hl]; simpl; [|done].
    by destruct Hset.
  - by rewrite decide_False.
Qed.

Lemma timeout_options_rejected_witness :
  timeoutUpdater_WithOptions (timeoutUpdater.mk 1)
    [sample_polling 1000; sample_lag 5] (NewBuilder "sample")
  = Panic "Cannot configure lag for timeout" (NewBuilder "sample").
Proof.
  apply (timeout_options_rejected (timeoutUpdater.mk 1)
           [sample_polling 1000; sample_lag 5] (NewBuilder "sample")).
  right. discriminate.
Defined.

(** Options that leave both at zero are accepted and written to the
    timeout configuration of the updater's status. *)
Lemma timeout_options_accepted (s : timeoutUpdater.t) (opts : list Option)
    (w : Workflow.t) :
  options.parallelCount (apply_opts opts options.zero) = 0 →
  options.lag (apply_opts opts options.zero) = 0 →
  ∃ w',
    timeoutUpdater_WithOptions s opts w = Done tt w'
    ∧ timeouts.pollingFrequency
        <$> Workflow.timeouts w' !! timeoutUpdater.from s
      = Some (options.pollingFrequency (apply_opts opts options.zero)).
Proof.
  intros Hp Hl. unfold timeoutUpdater_WithOptions. rewrite Hp, Hl. simpl.
  eexists. split; [reflexivity|]. simpl. by rewrite lookup_insert_eq.
Qed.

(** ** [Build] *)

(** C8.  [Build] panics when the workflow has a timeout configured and
    the build options, once all applied, name no timeout store; when the
    timeout map is empty, or a timeout store is named, it returns the
    workflow.  Either way the assignments that precede the check have
    been made. *)
Theorem Build_timeout_store_check (defaultOutboxConfig : outboxConfig)
    (defaultOptions : options.t) (defaultPausedRecordsRetry : pausedRecordsRetry)
    (eventStreamer recordStore roleScheduler : Iface)
    (opts : list BuildOption) (w : Workflow.t) :
  let bo :=
    apply_opts opts
      (defaultBuildOptions defaultOutboxConfig defaultOptions
         defaultPausedRecordsRetry) in
  let build :=
    Build defaultOutboxConfig defaultOptions defaultPausedRecordsRetry
      eventStreamer recordStore roleScheduler opts w in
  let w' := Build_assign eventStreamer recordStore roleScheduler bo w in
  (Workflow.timeouts w ≠ ∅ ∧ buildOptions.timeoutStore bo = None →
   build
   = Panic "cannot configure timeouts without providing TimeoutStore for workflow" w')
  ∧ (Workflow.timeouts w = ∅ ∨ is_Some (buildOptions.timeoutStore bo) →
     build = Done tt w')
  ∧ Workflow.timeoutStore w' = buildOptions.timeoutStore bo
  ∧ Workflow.timeouts w' = Workflow.timeouts w.
Proof.
  cbv zeta. unfold Build. cbv zeta.
  set (bo := apply_opts opts _). simpl.
  split; [|split; [|done]].
  - intros [Hts Hstore]. rewrite Hstore.
    rewrite bool_decide_eq_true_2; [done|].
    apply Nat.neq_0_lt_0. by apply map_size_non_empty_iff.
  - intros [Hts|[store Hstore]].
    + by rewrite Hts, map_size_empty.
    + rewrite Hstore. by rewrite andb_comm.
Qed.

(** A store supplied through [WithTimeoutStore] is the one the check
    sees, unless a later option overrides it. *)
Lemma WithTimeoutStore_last (store : Iface) (opts : list BuildOption)
    (bo : buildOptions.t) :
  buildOptions.timeoutStore (apply_opts (opts ++ [WithTimeoutStore store]) bo)
  = store.
Proof. unfold apply_opts. by rewrite foldl_app. Qed.

(** ** Steps *)

Section Steps.

Variable String : Status → string.

Lemma AddStep_existing (from : Status) (c : FuncRef)
    (allowedDestinations : list Status) (w : Workflow.t) :
  is_Some (Workflow.consumers w !! from) →
  AddStep String from c allowedDestinations w
  = Panic ("'AddStep(" +:+ String from +:+
           ",' already exists. Only one Step can be configured to consume the status")
          w.
Proof. intros [p Hp]. unfold AddStep. by rewrite Hp. Qed.

Lemma AddStep_fresh (from : Status) (c : FuncRef)
    (allowedDestinations : list Status) (w : Workflow.t) (s : stepUpdater.t)
    (w' : Workflow.t) :
  AddStep String from c allowedDestinations w = Done s w' →
  Workflow.consumers w !! from = None
  ∧ stepUpdater.from s = from
  ∧ step_functions w' = <[from := c]> (step_functions w).
Proof.
  unfold AddStep. destruct (Workflow.consumers w !! from) eqn:Hfrom; [discriminate|].
  intros [= <- <-]. split; [done|]. split; [done|].
  unfold step_functions. simpl. by rewrite fmap_insert.
Qed.

Lemma stepUpdater_WithOptions_keeps (s : stepUpdater.t) (opts : list Option)
    (w : Workflow.t) :
  is_Some (Workflow.consumers w !! stepUpdater.from s) →
  step_functions (stepUpdater_WithOptions s opts w) = step_functions w.
Proof.
  intros [p Hp]. unfold step_functions, stepUpdater_WithOptions. simpl.
  rewrite fmap_insert, Hp. simpl. apply insert_id.
  by rewrite lookup_fmap, Hp.
Qed.

Lemma step_options_keep (s : stepUpdater.t) (withOptions : list (list Option)) :
  ∀ w : Workflow.t,
    is_Some (Workflow.consumers w !! stepUpdater.from s) →
    step_functions (foldl (λ w opts, stepUpdater_WithOptions s opts w) w withOptions)
    = step_functions w.
Proof.
  induction withOptions as [|opts rest IH]; intros w Hs; [done|].
  simpl. rewrite IH.
  - by apply stepUpdater_WithOptions_keeps.
  - unfold stepUpdater_WithOptions. simpl. rewrite lookup_insert_eq. eauto.
Qed.

Lemma timeout_options_keep (s : timeoutUpdater.t)
    (withOptions : list (list Option)) :
  ∀ w w' : Workflow.t,
    timeout_options s withOptions w = Done tt w' →
    step_functions w' = step_functions w.
Proof.
  induction withOptions as [|opts rest IH]; intros w w'; simpl.
  - by intros [= <-].
  - destruct (timeoutUpdater_WithOptions s opts w) as [[] w1|] eqn:Hopts;
      [|discriminate].
    intros Hrest. rewrite (IH _ _ Hrest).
    unfold timeoutUpdater_WithOptions in Hopts.
    destruct (negb _); [discriminate|]. destruct (negb _); [discriminate|].
    by injection Hopts as <-.
Qed.

Lemma exec_step_functions (c : call) (w w' : Workflow.t) :
  exec String c w = Done tt w' →
  match c with
  | CallAddStep from f _ _ =>
      Workflow.consumers w !! from = None
      ∧ step_functions w' = <[from := f]> (step_functions w)
  | _ => step_functions w' = step_functions w
  end.
Proof.
  destruct c as [from f dests withOptions|from fn dests
                |from timer tf dests withOptions]; simpl.
  - destruct (AddStep String from f dests w) as [s w1|] eqn:Hadd; [|discriminate].
    apply AddStep_fresh in Hadd as (Hfresh & Hs & Hfn).
    intros [= <-]. split; [done|]. rewrite step_options_keep; [done|].
    rewrite Hs. apply (f_equal (λ m, m !! from)) in Hfn.
    unfold step_functions in Hfn. rewrite lookup_fmap, lookup_insert_eq in Hfn.
    by destruct (Workflow.consumers w1 !! from).
  - by intros [= <-].
  - intros Hopts. by rewrite (timeout_options_keep _ _ _ _ Hopts).
Qed.

Lemma exec_all_step_functions (cs : list call) :
  ∀ w0 w : Workflow.t,
    exec_all String cs w0 = Done tt w →
    NoDup (step_calls cs).*1
    ∧ (∀ S, S ∈ (step_calls cs).*1 → step_functions w0 !! S = None)
    ∧ step_functions w = list_to_map (step_calls cs) ∪ step_functions w0.
Proof.
  induction cs as [|c cs IH]; intros w0 w; simpl.
  - intros [= <-]. split; [constructor|]. split; [by intros S ?%elem_of_nil|].
    by rewrite (left_id_L ∅ (∪)).
  - destruct (exec String c w0) as [[] w1|] eqn:Hexec; [|discriminate].
    intros Hrest. destruct (IH _ _ Hrest) as (Hnd & Hfresh & Hfn).
    apply exec_step_functions in Hexec.
    destruct c as [from f dests withOptions|from fn dests
                  |from timer tf dests withOptions];
      try (rewrite Hexec in *; done).
    destruct Hexec as [Hfrom Hw1].
    change (step_calls (CallAddStep from f dests withOptions :: cs))
      with ((from, f) :: step_calls cs).
    rewrite fmap_cons. cbn [fst].
    assert (from ∉ (step_calls cs).*1) as Hnew.
    { intros Hin%Hfresh. by rewrite Hw1, lookup_insert_eq in Hin. }
    split; [by constructor|]. split.
    + intros S [->|Hin%Hfresh]%elem_of_cons.
      * unfold step_functions. by rewrite lookup_fmap, Hfrom.
      * rewrite Hw1 in Hin. apply lookup_insert_None in Hin. tauto.
    + rewrite Hfn, Hw1, list_to_map_cons, <- insert_union_l.
      symmetry. apply insert_union_r. by apply not_elem_of_list_to_map_1.
Qed.

(** C6.  A step can be added for a status only once: on a workflow that
    has a step for [S], [AddStep] with [from = S] panics and leaves the
    workflow as it is.  So in every builder program that runs to its end
    the statuses of the [AddStep] calls are pairwise distinct, and the
    workflow maps each status to the one step function added for it. *)
Theorem one_step_per_status (name : string) (cs : list call) (w : Workflow.t) :
  exec_all String cs (NewBuilder name) = Done tt w →
  NoDup (step_calls cs).*1
  ∧ (∀ S, consumerConfig.consumer <$> Workflow.consumers w !! S
          = (list_to_map (step_calls cs) : gmap Status FuncRef) !! S)
  ∧ (∀ S c allowedDestinations,
       is_Some (Workflow.consumers w !! S) →
       AddStep String S c allowedDestinations w
       = Panic ("'AddStep(" +:+ String S +:+
                ",' already exists. Only one Step can be configured to consume the status")
               w).
Proof.
  intros Hrun. destruct (exec_all_step_functions _ _ _ Hrun) as (Hnd & _ & Hfn).
  split; [done|]. split.
  - intros S. rewrite <- lookup_fmap. fold (step_functions w). rewrite Hfn.
    unfold step_functions. simpl. by rewrite fmap_empty, (right_id_L ∅ (∪)).
  - intros S c dests. apply AddStep_existing.
Qed.

End Steps.

Lemma one_step_per_status_witness :
  NoDup (step_calls sample_program).*1
  ∧ (∀ S, consumerConfig.consumer <$> Workflow.consumers sample_configured !! S
          = (list_to_map (step_calls sample_program) : gmap Status FuncRef) !! S)
  ∧ (∀ S c allowedDestinations,
       is_Some (Workflow.consumers sample_configured !! S) →
       AddStep sample_String S c allowedDestinations sample_configured
       = Panic ("'AddStep(" +:+ sample_String S +:+
                ",' already exists. Only one Step can be configured to consume the status")
               sample_configured).
Proof.
  apply (one_step_per_status sample_String "sample" sample_program
           sample_configured).
  vm_compute. reflexivity.
Defined.

Example AddStep_twice :
  AddStep sample_String 1 "another" [3] sample_configured
  = Panic "'AddStep(1,' already exists. Only one Step can be configured to consume the status"
      sample_configured.
Proof. vm_compute. reflexivity. Qed.

Example two_steps_rejected :
  ∃ msg w,
    exec_all sample_String
      [CallAddStep 1 "step1" [2] []; CallAddStep 1 "other" [3] []]
      (NewBuilder "sample")
    = Panic msg w
    ∧ consumerConfig.consumer <$> Workflow.consumers w !! 1 = Some "step1".
Proof. do 2 eexists. split; vm_compute; reflexivity. Qed.

Example Build_without_store :
  ∃ w,
    Build "" options.zero (mkPausedRecordsRetry true 3600000000000)
      (Some "streamer") (Some "store") (Some "scheduler") [WithDebugMode]
      sample_configured
    = Panic "cannot configure timeouts without providing TimeoutStore for workflow" w.
Proof. eexists. vm_compute. reflexivity. Qed.

Example Build_with_store :
  ∃ w,
    Build "" options.zero (mkPausedRecordsRetry true 3600000000000)
      (Some "streamer") (Some "store") (Some "scheduler")
      [WithDebugMode; WithTimeoutStore (Some "timeouts")] sample_configured
    = Done tt w
    ∧ Workflow.timeoutStore w = Some "timeouts".
Proof. eexists. split; vm_compute; reflexivity. Qed.

Example Build_without_timeouts :
  ∃ w,
    Build "" options.zero (mkPausedRecordsRetry true 3600000000000)
      (Some "streamer") (Some "store") (Some "scheduler") [] (NewBuilder "sample")
    = Done tt w
    ∧ Workflow.timeoutStore w = None.
Proof. eexists. split; vm_compute; reflexivity. Qed.

End DSLFacts.

(** * Further properties of workflow.go *)

Module EngineMore.

Import Engine EngineExt EngineFacts.

(** ** What [Run] launches besides the consumers *)

Lemma Run_first_inv (fuel : nat) (w : Workflow) (parent : Context) (h : CtxHeap)
    (w1 : Workflow) (h1 : CtxHeap) (gs : list Goroutine) :
  once w = false →
  Run fuel w parent h = Some (w1, h1, gs) →
  ∃ gs1 gs3 gs4,
    launch_each
      (λ entry : StatusType * list consumerConfig,
         launch_each (launch_consumer fuel entry.1) entry.2)
      (map_to_list (consumers w)) = Some gs1
    ∧ launch_each (launch_workflow_connector fuel) (workflowConnectorConfigs w)
      = Some gs3
    ∧ launch_each (launch_connector fuel) (connectorConfigs w) = Some gs4
    ∧ gs = gs1 ++ (map_to_list (timeouts_ w) ≫= launch_timeout) ++ gs3 ++ gs4
    ∧ h1 = mkCtxHeap (cancelled h) (S (next_id h)).
Proof.
  unfold Run, Run_body. intros ->. simpl.
  destruct (launch_each _ (map_to_list (consumers w))) as [gs1|]; simpl;
    [|discriminate].
  destruct (launch_each _ (workflowConnectorConfigs w)) as [gs3|]; simpl;
    [|discriminate].
  destruct (launch_each _ (connectorConfigs w)) as [gs4|]; simpl; [|discriminate].
  intros [= <- <- <-]. by exists gs1, gs3, gs4.
Qed.

Lemma launched_consumers (fuel : nat)
    (l : list (StatusType * list consumerConfig)) (gs : list Goroutine) :
  launch_each (λ entry, launch_each (launch_consumer fuel entry.1) entry.2) l
  = Some gs →
  Forall (λ g, ∃ s p i n, g = GoConsumer s p i n) gs.
Proof.
  apply launch_each_Forall. intros [s cfgs] gs'. simpl.
  apply launch_each_Forall. intros p gs''. unfold launch_consumer.
  destruct (ParallelCount p <? 2).
  - intros [= <-]. repeat constructor. by exists s, p, 1, 1.
  - intros Hl. eapply Forall_impl; [eapply for_shards_launched, Hl|].
    intros g [k ->]. by exists s, p, k, (ParallelCount p).
Qed.

Lemma launched_workflow_connectors (fuel : nat)
    (l : list workflowConnectorConfig) (gs : list Goroutine) :
  launch_each (launch_workflow_connector fuel) l = Some gs →
  Forall (λ g, ∃ c i n, g = GoWorkflowConnectorConsumer c i n) gs.
Proof.
  apply launch_each_Forall. intros c gs'. unfold launch_workflow_connector.
  destruct (wc_parallelCount c <? 2).
  - intros [= <-]. repeat constructor. by exists c, 1, 1.
  - intros Hl. eapply Forall_impl; [eapply for_shards_launched, Hl|].
    intros g [k ->]. by exists c, k, (wc_parallelCount c).
Qed.

Lemma launched_connectors (fuel : nat)
    (l : list connectorConfig) (gs : list Goroutine) :
  launch_each (launch_connector fuel) l = Some gs →
  Forall (λ g, ∃ c i n, g = GoConnectorConsumer c i n) gs.
Proof.
  apply launch_each_Forall. intros c gs'. unfold launch_connector.
  destruct (cc_parallelCount c <? 2).
  - intros [= <-]. repeat constructor. by exists c, 1, 1.
  - intros Hl. eapply Forall_impl; [eapply for_shards_launched, Hl|].
    intros g [k ->]. by exists c, k, (cc_parallelCount c).
Qed.

(** For every status with timeouts configured, the first [Run] starts
    one timeout poller and one timeout auto-inserter, both carrying that
    status and its timeouts; for a status without timeouts it starts
    neither. *)
Theorem Run_timeout_processors (fuel : nat) (w : Workflow) (parent : Context)
    (h : CtxHeap) (w1 : Workflow) (h1 : CtxHeap) (gs : list Goroutine) :
  once w = false →
  Run fuel w parent h = Some (w1, h1, gs) →
  ∀ s : StatusType,
    List.filter (timeout_of s) gs
    = match timeouts_ w !! s with
      | Some t => [GoTimeoutPoller s t; GoTimeoutAutoInserterConsumer s t]
      | None => []
      end.
Proof.
  intros Honce HRun s.
  destruct (Run_first_inv _ _ _ _ _ _ _ Honce HRun)
    as (gs1 & gs3 & gs4 & H1 & H3 & H4 & -> & _).
  rewrite !List.filter_app.
  rewrite (filter_none (timeout_of s) gs1).
  2:{ eapply Forall_impl; [eapply launched_consumers, H1|].
      by intros g (? & ? & ? & ? & ->). }
  rewrite (filter_none (timeout_of s) gs3).
  2:{ eapply Forall_impl; [eapply launched_workflow_connectors, H3|].
      by intros g (? & ? & ? & ->). }
  rewrite (filter_none (timeout_of s) gs4).
  2:{ eapply Forall_impl; [eapply launched_connectors, H4|].
      by intros g (? & ? & ? & ->). }
  rewrite app_nil_r. simpl. rewrite filter_bind.
  rewrite (list_bind_ext _
             (λ e, if decide (e.1 = s)
                   then [GoTimeoutPoller s e.2; GoTimeoutAutoInserterConsumer s e.2]
                   else [])
             _ (map_to_list (timeouts_ w))); [| |reflexivity].
  - destruct (timeouts_ w !! s) as [t|] eqn:Hs.
    + apply (bind_select_key
               (λ t, [GoTimeoutPoller s t; GoTimeoutAutoInserterConsumer s t])).
      * apply NoDup_fst_map_to_list.
      * by apply elem_of_map_to_list.
    + apply (bind_other_keys
               (λ t, [GoTimeoutPoller s t; GoTimeoutAutoInserterConsumer s t])).
      intros Hin. apply list_elem_of_fmap in Hin as ([k v] & -> & Hin).
      apply elem_of_map_to_list in Hin. simpl in Hs. congruence.
  - intros [k t]. simpl. destruct (decide (k = s)) as [->|Hne].
    + by rewrite !bool_decide_eq_true_2.
    + by rewrite !bool_decide_eq_false_2.
Qed.

Lemma Run_timeout_processors_witness :
  List.filter (timeout_of 1) sample_goroutines
  = match timeouts_ sample_workflow !! 1 with
    | Some t => [GoTimeoutPoller 1 t; GoTimeoutAutoInserterConsumer 1 t]
    | None => []
    end.
Proof.
  refine (Run_timeout_processors 4 sample_workflow Background empty_heap
            sample_started (mkCtxHeap ∅ 1) sample_goroutines _ _ 1).
  - reflexivity.
  - vm_compute. reflexivity.
Defined.

Lemma launch_workflow_connector_shards (fuel : nat) (c : workflowConnectorConfig) :
  fits fuel (wc_parallelCount c) →
  launch_workflow_connector fuel c = Some (workflow_connector_shards c).
Proof.
  intros [Hmax Hfuel]. unfold launch_workflow_connector, workflow_connector_shards.
  destruct (Z.ltb_spec (wc_parallelCount c) 2) as [Hlt|Hge].
  - destruct (decide (2 ≤ wc_parallelCount c)); [lia|reflexivity].
  - destruct (decide (2 ≤ wc_parallelCount c)); [|lia].
    rewrite for_shards_seqZ; unfold min_int, int_bits; simpl; try lia.
    replace (wc_parallelCount c + 1 - 1) with (wc_parallelCount c) by lia.
    reflexivity.
Qed.

Lemma launch_connector_shards (fuel : nat) (c : connectorConfig) :
  fits fuel (cc_parallelCount c) →
  launch_connector fuel c = Some (connector_shards c).
Proof.
  intros [Hmax Hfuel]. unfold launch_connector, connector_shards.
  destruct (Z.ltb_spec (cc_parallelCount c) 2) as [Hlt|Hge].
  - destruct (decide (2 ≤ cc_parallelCount c)); [lia|reflexivity].
  - destruct (decide (2 ≤ cc_parallelCount c)); [|lia].
    rewrite for_shards_seqZ; unfold min_int, int_bits; simpl; try lia.
    replace (cc_parallelCount c + 1 - 1) with (cc_parallelCount c) by lia.
    reflexivity.
Qed.

Lemma connector_shards_kind (c : connectorConfig) :
  Forall (λ g, is_connector g = true ∧ is_workflow_connector g = false)
    (connector_shards c).
Proof.
  unfold connector_shards. destruct (decide (2 ≤ cc_parallelCount c)).
  - apply Forall_fmap, Forall_forall. by intros.
  - by repeat constructor.
Qed.

Lemma workflow_connector_shards_kind (c : workflowConnectorConfig) :
  Forall (λ g, is_workflow_connector g = true ∧ is_connector g = false)
    (workflow_connector_shards c).
Proof.
  unfold workflow_connector_shards. destruct (decide (2 ≤ wc_parallelCount c)).
  - apply Forall_fmap, Forall_forall. by intros.
  - by repeat constructor.
Qed.

Lemma Run_returns (fuel : nat) (w : Workflow) (parent : Context) (h : CtxHeap) :
  once w = false →
  runnable fuel w →
  ∃ w1 h1 gs, Run fuel w parent h = Some (w1, h1, gs).
Proof.
  intros Honce (Hc & Hwc & Hcc). unfold Run, Run_body. rewrite Honce. simpl.
  rewrite (launch_each_Some _ (λ e, e.2 ≫= shards_of e.1)).
  2:{ apply Forall_forall. intros [k cfgs] Hin. simpl.
      apply launch_each_Some.
      apply elem_of_map_to_list in Hin. specialize (Hc k cfgs Hin). simpl in Hc.
      eapply Forall_impl; [exact Hc|]. intros p Hp.
      by apply launch_consumer_shards. }
  rewrite (launch_each_Some _ workflow_connector_shards).
  2:{ eapply Forall_impl; [exact Hwc|]. intros c.
      apply launch_workflow_connector_shards. }
  rewrite (launch_each_Some _ connector_shards).
  2:{ eapply Forall_impl; [exact Hcc|]. intros c. apply launch_connector_shards. }
  simpl. eauto.
Qed.

(** The first [Run] starts the connector processors in the order the
    connectors are configured: for each workflow connector and each
    connector, shards 1 to N of N where its parallel count N is at least
    2, and shard 1 of 1 otherwise. *)
Theorem Run_connector_shards (fuel : nat) (w : Workflow) (parent : Context)
    (h : CtxHeap) :
  once w = false →
  runnable fuel w →
  ∃ w1 h1 gs,
    Run fuel w parent h = Some (w1, h1, gs)
    ∧ List.filter is_workflow_connector gs
      = workflowConnectorConfigs w ≫= workflow_connector_shards
    ∧ List.filter is_connector gs = connectorConfigs w ≫= connector_shards.
Proof.
  intros Honce Hrun.
  destruct (Run_returns fuel w parent h Honce Hrun) as (w1 & h1 & gs & HRun).
  exists w1, h1, gs. split; [done|].
  destruct Hrun as (_ & Hwc & Hcc).
  destruct (Run_first_inv _ _ _ _ _ _ _ Honce HRun)
    as (gs1 & gs3 & gs4 & H1 & H3 & H4 & -> & _).
  rewrite (launch_each_Some _ workflow_connector_shards) in H3.
  2:{ eapply Forall_impl; [exact Hwc|]. intros c.
      apply launch_workflow_connector_shards. }
  rewrite (launch_each_Some _ connector_shards) in H4.
  2:{ eapply Forall_impl; [exact Hcc|]. intros c. apply launch_connector_shards. }
  injection H3 as <-. injection H4 as <-.
  rewrite !List.filter_app.
  assert (∀ P : Goroutine → bool,
            (∀ s p i n, P (GoConsumer s p i n) = false) →
            List.filter P gs1 = []) as Hgs1.
  { intros P HP. apply filter_none.
    eapply Forall_impl; [eapply launched_consumers, H1|].
    intros g (? & ? & ? & ? & ->). apply HP. }
  assert (∀ P : Goroutine → bool,
            (∀ s t, P (GoTimeoutPoller s t) = false) →
            (∀ s t, P (GoTimeoutAutoInserterConsumer s t) = false) →
            List.filter P (map_to_list (timeouts_ w) ≫= launch_timeout) = [])
    as Hgs2.
  { intros P HP1 HP2. apply filter_none, Forall_bind, Forall_forall.
    intros e _. repeat constructor; simpl; auto. }
  rewrite !Hgs1, !Hgs2 by done. simpl. split.
  - rewrite (filter_all is_workflow_connector), (filter_none is_workflow_connector).
    + by rewrite app_nil_r.
    + apply Forall_bind, Forall_forall. intros c _.
      eapply Forall_impl; [apply connector_shards_kind|]. by intros g [_ ?].
    + apply Forall_bind, Forall_forall. intros c _.
      eapply Forall_impl; [apply workflow_connector_shards_kind|]. by intros g [? _].
  - rewrite (filter_none is_connector), (filter_all is_connector).
    + done.
    + apply Forall_bind, Forall_forall. intros c _.
      eapply Forall_impl; [apply connector_shards_kind|]. by intros g [? _].
    + apply Forall_bind, Forall_forall. intros c _.
      eapply Forall_impl; [apply workflow_connector_shards_kind|]. by intros g [_ ?].
Qed.

Lemma Run_connector_shards_witness :
  ∃ w1 h1 gs,
    Run 4 sample_workflow Background empty_heap = Some (w1, h1, gs)
    ∧ List.filter is_workflow_connector gs
      = workflowConnectorConfigs sample_workflow ≫= workflow_connector_shards
    ∧ List.filter is_connector gs
      = connectorConfigs sample_workflow ≫= connector_shards.
Proof.
  apply (Run_connector_shards 4 sample_workflow Background empty_heap).
  - reflexivity.
  - exact sample_workflow_runnable.
Defined.

(** ** The counting loop at the edge of [int] *)

Lemma wrap_int_range (z : Z) : min_int ≤ wrap_int z ≤ max_int.
Proof.
  unfold wrap_int, min_int, max_int, int_bits.
  change (2 ^ (64 - 1)) with 9223372036854775808.
  change (2 ^ 64) with 18446744073709551616.
  pose proof (Z.mod_pos_bound (z + 9223372036854775808) 18446744073709551616
                ltac:(lia)).
  lia.
Qed.

Lemma for_shards_unbounded {A : Type} (launch : Z → Z → A) (fuel : nat) :
  ∀ i : Z, i ≤ max_int → for_shards fuel launch i max_int = None.
Proof.
  induction fuel as [|fuel IH]; intros i Hi; [reflexivity|].
  simpl. destruct (Z.leb_spec i max_int) as [_|Hgt]; [|lia].
  rewrite IH; [reflexivity|]. apply wrap_int_range.
Qed.

Lemma launch_each_None {A B : Type} (f : A → option (list B)) (a : A)
    (l : list A) :
  a ∈ l → f a = None → launch_each f l = None.
Proof.
  intros Hin Ha. induction l as [|a' l IH]; [by apply elem_of_nil in Hin|].
  simpl. apply elem_of_cons in Hin as [<-|Hin].
  - by rewrite Ha.
  - rewrite (IH Hin). by destruct (f a').
Qed.

(** A consumer configured with a parallel count of [MaxInt] keeps the
    first [Run] from ever returning: the shard counter wraps around
    before it can exceed the count, so the launching loop goes on
    however long it is given. *)
Theorem Run_unbounded_shards (w : Workflow) (parent : Context) (h : CtxHeap)
    (s : StatusType) (cfgs : list consumerConfig) (p : consumerConfig) :
  once w = false →
  consumers w !! s = Some cfgs →
  p ∈ cfgs →
  ParallelCount p = max_int →
  ∀ fuel : nat, Run fuel w parent h = None.
Proof.
  intros Honce Hs Hp Hmax fuel. unfold Run, Run_body. rewrite Honce. simpl.
  rewrite (launch_each_None _ (s, cfgs)); [reflexivity| |].
  - by apply elem_of_map_to_list.
  - simpl. apply (launch_each_None _ p); [done|].
    unfold launch_consumer. rewrite Hmax.
    destruct (Z.ltb_spec max_int 2) as [Hlt|_]; [by vm_compute in Hlt|].
    apply for_shards_unbounded. by vm_compute.
Qed.

Lemma Run_unbounded_shards_witness :
  Run 1000 sample_unbounded Background empty_heap = None.
Proof.
  refine (Run_unbounded_shards sample_unbounded Background empty_heap 1
            [mkConsumerConfig max_int "step1"] (mkConsumerConfig max_int "step1")
            _ _ _ _ 1000%nat).
  - reflexivity.
  - apply lookup_insert_eq.
  - apply list_elem_of_here.
  - reflexivity.
Defined.

(** ** The workflow's context *)

Lemma ids_below_not_cancelled (h : CtxHeap) (c : Context) (n : nat) :
  ids_below n c →
  ctx_done (call_cancel n h) c = ctx_done h c.
Proof.
  induction c as [|id parent IH]; [done|]. simpl. intros [Hid Hparent].
  rewrite IH by done. f_equal. apply bool_decide_ext.
  unfold call_cancel. cbn [cancelled].
  rewrite elem_of_union, elem_of_singleton.
  split; [intros [->|Hin]; [lia|done]|by right].
Qed.

Lemma ctx_done_cancelled (h h' : CtxHeap) (c : Context) :
  cancelled h' = cancelled h → ctx_done h' c = ctx_done h c.
Proof.
  intros Heq. induction c as [|id parent IH]; [done|].
  simpl. by rewrite IH, Heq.
Qed.

Lemma ctx_done_parent (h : CtxHeap) (id : nat) (parent : Context) :
  ctx_done h parent = true → ctx_done h (Derived id parent) = true.
Proof. simpl. intros ->. apply orb_true_r. Qed.

(** The context [Run] gives the workflow is a child of the caller's.  On
    a heap that has handed out all identities in use: right after [Run]
    it is done exactly if the caller's context is; it is done whenever
    the caller's context is done; and [Stop], whether it has returned or
    is still waiting, has cancelled it but has left the caller's context
    as it was. *)
Theorem Run_context_scoping (fuel : nat) (w : Workflow) (parent : Context)
    (h : CtxHeap) (w1 : Workflow) (h1 : CtxHeap) (gs : list Goroutine) :
  once w = false →
  Run fuel w parent h = Some (w1, h1, gs) →
  heap_wf h →
  ids_below (next_id h) parent →
  ∃ root,
    ctx w1 = Some root
    ∧ ctx_done h1 root = ctx_done h parent
    ∧ (∀ h2, ctx_done h2 parent = true → ctx_done h2 root = true)
    ∧ (∀ h2 obs,
         let h3 := match Stop w1 h2 obs with
                   | Returned h3 _ | Spinning h3 => h3
                   end in
         ctx_done h3 root = true ∧ ctx_done h3 parent = ctx_done h2 parent).
Proof.
  intros Honce HRun Hwf Hparent.
  destruct (Run_first_sets _ _ _ _ _ _ _ Honce HRun) as (Hctx & Hcancel & _).
  destruct (Run_first_inv _ _ _ _ _ _ _ Honce HRun)
    as (_ & _ & _ & _ & _ & _ & _ & ->).
  exists (Derived (next_id h) parent).
  split; [exact Hctx|]. split; [|split].
  - simpl. rewrite bool_decide_eq_false_2; [by apply ctx_done_cancelled|].
    intros Hin%Hwf. lia.
  - intros h2. apply ctx_done_parent.
  - intros h2 obs. unfold Stop. rewrite Hcancel.
    destruct (Stop_wait 0 obs); cbv beta iota zeta;
      (split; [apply call_cancel_done|by apply ids_below_not_cancelled]).
Qed.

Lemma Run_context_scoping_witness :
  ∃ root,
    ctx sample_started = Some root
    ∧ ctx_done (mkCtxHeap ∅ 1) root = ctx_done empty_heap Background
    ∧ (∀ h2, ctx_done h2 Background = true → ctx_done h2 root = true)
    ∧ (∀ h2 obs,
         let h3 := match Stop sample_started h2 obs with
                   | Returned h3 _ | Spinning h3 => h3
                   end in
         ctx_done h3 root = true
         ∧ ctx_done h3 Background = ctx_done h2 Background).
Proof.
  apply (Run_context_scoping 4 sample_workflow Background empty_heap
           sample_started (mkCtxHeap ∅ 1) sample_goroutines).
  - reflexivity.
  - vm_compute. reflexivity.
  - intros id Hin. by apply elem_of_empty in Hin.
  - exact I.
Defined.

(** ** Traces of the role-leased loop *)

Lemma reported_cons (processName : string) (e : Event) (l : list Event) :
  reported processName (e :: l)
  = match e with
    | EvUpdateState n s =>
        if decide (n = processName) then s :: reported processName l
        else reported processName l
    | _ => reported processName l
    end.
Proof.
  destruct e as [n s| | | | | | | | |]; try reflexivity.
  unfold reported. simpl. by destruct (decide (n = processName)).
Qed.

Lemma count_app (P : Event → bool) (l1 l2 : list Event) :
  count P (l1 ++ l2) = (count P l1 + count P l2)%nat.
Proof. unfold count. by rewrite List.filter_app, length_app. Qed.

Lemma run_iter_flow (w : Workflow) (role processName : string)
    (errBackOff : Duration) (t : Turn) :
  (run_iter w role processName errBackOff t).2
  = if stops t then Return else Continue.
Proof.
  unfold run_iter, stops. destruct (root_done t); [done|]. simpl.
  destruct (IsAny_Canceled (await_err t)); [done|].
  destruct (await_err t); [done|].
  destruct (IsAny_Canceled (process_err t)); [done|].
  destruct (process_err t); [|done]. by destruct (lease_done_first t).
Qed.

(** The loop returns in the first pass that finds the root context
    cancelled or whose Await returns a cancellation, and in no other
    pass: a failing Await, a failing process and a cancelled process all
    leave it running. *)
Theorem run_returns_only_on_shutdown (w : Workflow) (role processName : string)
    (errBackOff : Duration) (turns : list Turn) :
  (run w role processName errBackOff turns).2
  = if existsb stops turns then Return else Continue.
Proof.
  unfold run. cbn [snd]. induction turns as [|t turns IH]; [done|].
  cbn [run_loop existsb].
  pose proof (run_iter_flow w role processName errBackOff t) as Hflow.
  destruct (run_iter w role processName errBackOff t) as [evs flow].
  simpl in Hflow. subst flow. destruct (stops t); simpl; [done|exact IH].
Qed.

Lemma run_iter_states (w : Workflow) (role processName : string)
    (errBackOff : Duration) (t : Turn) :
  reported processName (run_iter w role processName errBackOff t).1
  = replicate (count is_process (run_iter w role processName errBackOff t).1)
      StateRunning.
Proof.
  unfold run_iter.
  destruct (root_done t), (debugMode w), (await_err t) as [e|],
    (process_err t) as [e'|], (lease_done_first t); simpl;
    repeat match goal with
           | |- context [is_canceled ?x] => destruct (is_canceled x); simpl
           end;
    rewrite ?reported_cons, ?decide_True by done; reflexivity.
Qed.

Lemma run_loop_states (w : Workflow) (role processName : string)
    (errBackOff : Duration) (turns : list Turn) :
  reported processName (run_loop w role processName errBackOff turns).1
  = replicate (count is_process (run_loop w role processName errBackOff turns).1)
      StateRunning.
Proof.
  induction turns as [|t turns IH]; [done|]. cbn [run_loop].
  pose proof (run_iter_states w role processName errBackOff t) as Hiter.
  destruct (run_iter w role processName errBackOff t) as [evs []];
    cbn [fst snd] in *; [|done].
  by rewrite reported_app, count_app, replicate_add, Hiter, IH.
Qed.

(** The states a process reports form, in order: Idle, once; Running,
    once for each time the process function has been started; and
    Shutdown, once and last, exactly if the loop has returned. *)
Theorem run_state_sequence (w : Workflow) (role processName : string)
    (errBackOff : Duration) (turns : list Turn) :
  reported processName (run w role processName errBackOff turns).1
  = StateIdle ::
    replicate (count is_process (run w role processName errBackOff turns).1)
      StateRunning
    ++ match (run w role processName errBackOff turns).2 with
       | Return => [StateShutdown]
       | Continue => []
       end.
Proof.
  unfold run. cbn [fst snd]. rewrite reported_update, reported_app.
  rewrite run_loop_states. f_equal.
  change (EvUpdateState processName StateIdle :: ?l)
    with ([EvUpdateState processName StateIdle] ++ l).
  rewrite !count_app.
  destruct (run_loop w role processName errBackOff turns).2.
  - by rewrite Nat.add_0_r.
  - rewrite reported_update. by rewrite Nat.add_0_r.
Qed.

Lemma run_iter_leases (w : Workflow) (role processName : string)
    (errBackOff : Duration) (t : Turn) :
  let evs := (run_iter w role processName errBackOff t).1 in
  (count is_release evs ≤ count is_process evs ≤ count is_await evs)%nat
  ∧ (IsAny_Canceled (process_err t) = false →
     count is_release evs = count is_process evs)
  ∧ (count is_process_error evs ≤ count is_release evs)%nat
  ∧ (count is_backoff evs ≤ count is_await evs)%nat.
Proof.
  unfold run_iter.
  destruct (root_done t), (debugMode w), (await_err t) as [e|],
    (process_err t) as [e'|], (lease_done_first t); simpl;
    repeat match goal with
           | |- context [is_canceled ?x] => destruct (is_canceled x) eqn:?; simpl
           end;
    unfold count; simpl; repeat split; try lia; try discriminate; done.
Qed.

(** Leases are accounted for over the whole execution: the process
    function is started at most once per lease request, a lease is
    released at most once per start of the process function, and exactly
    once if no process function returns a cancellation; process errors
    are counted at most once per released lease, and the loop backs off
    at most once per lease request. *)
Theorem run_lease_accounting (w : Workflow) (role processName : string)
    (errBackOff : Duration) (turns : list Turn) :
  let evs := (run w role processName errBackOff turns).1 in
  (count is_release evs ≤ count is_process evs ≤ count is_await evs)%nat
  ∧ (Forall (λ t, IsAny_Canceled (process_err t) = false) turns →
     count is_release evs = count is_process evs)
  ∧ (count is_process_error evs ≤ count is_release evs)%nat
  ∧ (count is_backoff evs ≤ count is_await evs)%nat.
Proof.
  cbv zeta. unfold run. cbn [fst].
  change (EvUpdateState processName StateIdle :: ?l)
    with ([EvUpdateState processName StateIdle] ++ l).
  assert (∀ P : Event → bool,
            (∀ n s, P (EvUpdateState n s) = false) →
            count P
              ([EvUpdateState processName StateIdle]
               ++ (run_loop w role processName errBackOff turns).1
               ++ match (run_loop w role processName errBackOff turns).2 with
                  | Return => [EvUpdateState processName StateShutdown]
                  | Continue => []
                  end)
            = count P (run_loop w role processName errBackOff turns).1) as Hloop.
  { intros P HP. rewrite !count_app. unfold count at 1. simpl. rewrite HP.
    destruct (run_loop w role processName errBackOff turns).2;
      unfold count at 2; simpl; rewrite ?HP; simpl; lia. }
  rewrite !Hloop by done. clear Hloop.
  induction turns as [|t turns IH]; [by repeat split|].
  cbn [run_loop].
  pose proof (run_iter_leases w role processName errBackOff t) as Hiter.
  destruct (run_iter w role processName errBackOff t) as [evs []];
    cbn [fst snd] in *; cbv zeta in Hiter.
  - rewrite !count_app.
    destruct Hiter as (H1 & H2 & H3 & H4), IH as (I1 & I2 & I3 & I4).
    repeat split; try lia.
    intros [Ht Hts]%Forall_cons. rewrite H2, I2 by done. done.
  - destruct Hiter as (H1 & H2 & H3 & H4). repeat split; try lia.
    intros [Ht Hts]%Forall_cons. by apply H2.
Qed.

(** ** The error paths of one pass *)

Lemma run_loop_pass (w : Workflow) (role processName : string)
    (errBackOff : Duration) (pre : list Turn) (t : Turn) (rest : list Turn)
    (evs : list Event) :
  (run_loop w role processName errBackOff pre).2 = Continue →
  run_iter w role processName errBackOff t = (evs, Continue) →
  run_loop w role processName errBackOff (pre ++ t :: rest)
  = ((run_loop w role processName errBackOff pre).1
       ++ evs ++ (run_loop w role processName errBackOff rest).1,
     (run_loop w role processName errBackOff rest).2).
Proof.
  intros Hpre Hiter. rewrite run_loop_app by done. cbn [run_loop].
  by rewrite Hiter.
Qed.

(** When the Await fails with an error that is not a cancellation, the
    pass logs it and sleeps the error backoff; it neither reports
    Running nor starts the process function, and the loop goes on with
    its next pass. *)
Theorem await_error_backs_off (w : Workflow) (role processName : string)
    (errBackOff : Duration) (pre : list Turn) (t : Turn) (rest : list Turn)
    (err : error) :
  (run_loop w role processName errBackOff pre).2 = Continue →
  root_done t = false →
  await_err t = Some err →
  is_canceled err = false →
  run_loop w role processName errBackOff (pre ++ t :: rest)
  = ((run_loop w role processName errBackOff pre).1
       ++ [EvAwait role;
           EvLogError "error awaiting role" err;
           EvSleep errBackOff]
       ++ (run_loop w role processName errBackOff rest).1,
     (run_loop w role processName errBackOff rest).2).
Proof.
  intros Hpre Hroot Hawait Herr. apply run_loop_pass; [done|].
  unfold run_iter. rewrite Hroot, Hawait. simpl. by rewrite Herr.
Qed.

Lemma await_error_backs_off_witness :
  run_loop sample_started "role" "process" 1000
    ([sample_clean] ++ sample_await_failed :: [sample_stop])
  = ((run_loop sample_started "role" "process" 1000 [sample_clean]).1
       ++ [EvAwait "role";
           EvLogError "error awaiting role" (Failure "scheduler down");
           EvSleep 1000]
       ++ (run_loop sample_started "role" "process" 1000 [sample_stop]).1,
     (run_loop sample_started "role" "process" 1000 [sample_stop]).2).
Proof.
  apply (await_error_backs_off sample_started "role" "process" 1000
           [sample_clean] sample_await_failed [sample_stop]
           (Failure "scheduler down")); reflexivity.
Defined.

(** When the process function fails with an error that is not a
    cancellation, the pass logs it, counts one process error for the
    workflow and the process, waits until the leased context ends or the
    error backoff has passed, whichever comes first, releases the lease,
    and the loop goes on with its next pass. *)
Theorem process_error_waits_and_releases (w : Workflow)
    (role processName : string) (errBackOff : Duration)
    (pre : list Turn) (t : Turn) (rest : list Turn) (err : error) :
  (run_loop w role processName errBackOff pre).2 = Continue →
  root_done t = false →
  await_err t = None →
  process_err t = Some err →
  is_canceled err = false →
  run_loop w role processName errBackOff (pre ++ t :: rest)
  = ((run_loop w role processName errBackOff pre).1
       ++ [EvAwait role;
           EvUpdateState processName StateRunning;
           EvProcess (await_ctx t);
           EvLogError "process error" err;
           EvProcessErrorsInc (Name w) processName;
           if lease_done_first t then EvLeaseDone (await_ctx t)
           else EvTimeAfter errBackOff;
           EvCancel (await_cancel t)]
       ++ (run_loop w role processName errBackOff rest).1,
     (run_loop w role processName errBackOff rest).2).
Proof.
  intros Hpre Hroot Hawait Hproc Herr. apply run_loop_pass; [done|].
  unfold run_iter. rewrite Hroot, Hawait, Hproc. simpl. rewrite Herr.
  by destruct (lease_done_first t).
Qed.

Lemma process_error_waits_and_releases_witness :
  run_loop sample_started "role" "process" 1000
    ([sample_clean] ++ sample_failed :: [sample_stop])
  = ((run_loop sample_started "role" "process" 1000 [sample_clean]).1
       ++ [EvAwait "role";
           EvUpdateState "process" StateRunning;
           EvProcess (await_ctx sample_failed);
           EvLogError "process error" (Failure "handler failed");
           EvProcessErrorsInc (Name sample_started) "process";
           if lease_done_first sample_failed
           then EvLeaseDone (await_ctx sample_failed)
           else EvTimeAfter 1000;
           EvCancel (await_cancel sample_failed)]
       ++ (run_loop sample_started "role" "process" 1000 [sample_stop]).1,
     (run_loop sample_started "role" "process" 1000 [sample_stop]).2).
Proof.
  apply (process_error_waits_and_releases sample_started "role" "process" 1000
           [sample_clean] sample_failed [sample_stop] (Failure "handler failed"));
    reflexivity.
Defined.

(** When the process function returns a cancellation, wrapped or not,
    the pass ends there: no error is logged or counted, the loop does not
    back off, and the lease's release function is not called; the loop
    goes on with its next pass. *)
Theorem process_cancelled_keeps_lease (w : Workflow)
    (role processName : string) (errBackOff : Duration)
    (pre : list Turn) (t : Turn) (rest : list Turn) (err : error) :
  (run_loop w role processName errBackOff pre).2 = Continue →
  root_done t = false →
  await_err t = None →
  process_err t = Some err →
  is_canceled err = true →
  run_loop w role processName errBackOff (pre ++ t :: rest)
  = ((run_loop w role processName errBackOff pre).1
       ++ [EvAwait role;
           EvUpdateState processName StateRunning;
           EvProcess (await_ctx t)]
       ++ (run_loop w role processName errBackOff rest).1,
     (run_loop w role processName errBackOff rest).2).
Proof.
  intros Hpre Hroot Hawait Hproc Herr. apply run_loop_pass; [done|].
  unfold run_iter. rewrite Hroot, Hawait, Hproc. simpl. by rewrite Herr.
Qed.

Lemma process_cancelled_keeps_lease_witness :
  run_loop sample_started "role" "process" 1000
    ([sample_clean] ++ sample_interrupted :: [sample_stop])
  = ((run_loop sample_started "role" "process" 1000 [sample_clean]).1
       ++ [EvAwait "role";
           EvUpdateState "process" StateRunning;
           EvProcess (await_ctx sample_interrupted)]
       ++ (run_loop sample_started "role" "process" 1000 [sample_stop]).1,
     (run_loop sample_started "role" "process" 1000 [sample_stop]).2).
Proof.
  apply (process_cancelled_keeps_lease sample_started "role" "process" 1000
           [sample_clean] sample_interrupted [sample_stop]
           (Wrap "step" Canceled)); reflexivity.
Defined.

(** When the Await itself returns a cancellation, the loop returns at
    once: it reports Shutdown without having reported Running or started
    the process function in that pass, and the passes that would follow
    never happen. *)
Theorem await_cancelled_exits (w : Workflow) (role processName : string)
    (errBackOff : Duration) (pre : list Turn) (t : Turn) (rest : list Turn) :
  (run_loop w role processName errBackOff pre).2 = Continue →
  root_done t = false →
  IsAny_Canceled (await_err t) = true →
  run w role processName errBackOff (pre ++ t :: rest)
  = (EvUpdateState processName StateIdle ::
     (run_loop w role processName errBackOff pre).1
     ++ [EvAwait role; EvUpdateState processName StateShutdown],
     Return).
Proof.
  intros Hpre Hroot Hawait. unfold run.
  rewrite run_loop_app by done. cbn [run_loop].
  unfold run_iter. rewrite Hroot, Hawait. cbn [fst snd].
  by rewrite <- app_assoc.
Qed.

Lemma await_cancelled_exits_witness :
  run sample_started "role" "process" 1000
    ([sample_clean] ++ sample_await_cancelled :: [sample_again])
  = (EvUpdateState "process" StateIdle ::
     (run_loop sample_started "role" "process" 1000 [sample_clean]).1
     ++ [EvAwait "role"; EvUpdateState "process" StateShutdown],
     Return).
Proof.
  apply (await_cancelled_exits sample_started "role" "process" 1000
           [sample_clean] sample_await_cancelled [sample_again]); reflexivity.
Defined.

(** ** [Stop] over arbitrary snapshots *)

(** Once a cancel function is in place, [Stop] cancels it and returns
    on the first snapshot in which every process is Unknown or Shutdown,
    having read each earlier snapshot once; in particular an internal
    state that is still empty, no process having registered yet, lets it
    return on its first read. *)
Theorem Stop_returns_iff_quiescent (w : Workflow) (h : CtxHeap)
    (cancelFn : CancelFunc) :
  cancel w = Some cancelFn →
  (∀ obs h' polls,
     Stop w h obs = Returned h' polls
     ↔ h' = call_cancel cancelFn h
       ∧ ∃ pre states post,
           obs = pre ++ states :: post
           ∧ polls = S (length pre)
           ∧ quiescent states
           ∧ Forall (λ m, ¬ quiescent m) pre)
  ∧ (∀ obs, Stop w h (∅ :: obs) = Returned (call_cancel cancelFn h) 1).
Proof.
  intros Hcancel. unfold Stop. rewrite Hcancel. split.
  - intros obs h' polls. split.
    + destruct (Stop_wait 0 obs) as [k|] eqn:Hwait; [|discriminate].
      intros [= <- <-]. split; [done|].
      apply Stop_wait_returns in Hwait as (pre & states & post & -> & -> & Hq & Hpre).
      exists pre, states, post. split; [done|]. split; [done|].
      split; [by apply runningProcesses_zero|].
      eapply Forall_impl; [exact Hpre|]. intros m Hm Hq'. apply Hm.
      by apply runningProcesses_zero.
    + intros (-> & pre & states & post & -> & -> & Hq & Hpre).
      assert (Stop_wait 0 (pre ++ states :: post) = Some (S (length pre))) as ->;
        [|done].
      apply Stop_wait_returns. exists pre, states, post.
      split; [done|]. split; [done|]. split; [by apply runningProcesses_zero|].
      eapply Forall_impl; [exact Hpre|]. intros m Hm Hz. apply Hm.
      by apply runningProcesses_zero.
  - intros obs. reflexivity.
Qed.

Lemma Stop_returns_iff_quiescent_witness :
  (∀ obs h' polls,
     Stop sample_started (mkCtxHeap ∅ 1) obs = Returned h' polls
     ↔ h' = call_cancel 0%nat (mkCtxHeap ∅ 1)
       ∧ ∃ pre states post,
           obs = pre ++ states :: post
           ∧ polls = S (length pre)
           ∧ quiescent states
           ∧ Forall (λ m, ¬ quiescent m) pre)
  ∧ (∀ obs,
       Stop sample_started (mkCtxHeap ∅ 1) (∅ :: obs)
       = Returned (call_cancel 0%nat (mkCtxHeap ∅ 1)) 1).
Proof.
  apply (Stop_returns_iff_quiescent sample_started (mkCtxHeap ∅ 1) 0%nat).
  reflexivity.
Defined.

(** ** [Run] after [Stop] *)

(** A stopped workflow cannot be started again: after a first [Run] and
    a [Stop], whether [Stop] has returned or is still waiting, every
    further [Run] launches nothing and leaves the workflow with the
    context [Stop] has cancelled. *)
Theorem Run_after_Stop (fuel : nat) (w : Workflow) (parent : Context)
    (h : CtxHeap) (w1 : Workflow) (h1 : CtxHeap) (gs : list Goroutine) :
  once w = false →
  Run fuel w parent h = Some (w1, h1, gs) →
  ∀ h2 obs fuel' parent',
    let h3 := match Stop w1 h2 obs with
              | Returned h3 _ | Spinning h3 => h3
              end in
    Run fuel' w1 parent' h3 = Some (w1, h3, [])
    ∧ ∃ root, ctx w1 = Some root ∧ ctx_done h3 root = true.
Proof.
  intros Honce HRun h2 obs fuel' parent'. cbv zeta.
  split; [apply Run_after_once; by eapply Run_sets_once|].
  destruct (Run_first_sets _ _ _ _ _ _ _ Honce HRun) as (Hctx & Hcancel & _).
  exists (Derived (next_id h) parent). split; [done|].
  unfold Stop. rewrite Hcancel.
  destruct (Stop_wait 0 obs); cbv beta iota zeta; apply call_cancel_done.
Qed.

Lemma Run_after_Stop_witness :
  let h3 := match Stop sample_started (mkCtxHeap ∅ 1) [sample_running] with
            | Returned h3 _ | Spinning h3 => h3
            end in
  Run 4 sample_started Background h3 = Some (sample_started, h3, [])
  ∧ ∃ root, ctx sample_started = Some root ∧ ctx_done h3 root = true.
Proof.
  refine (Run_after_Stop 4 sample_workflow Background empty_heap
            sample_started (mkCtxHeap ∅ 1) sample_goroutines _ _
            (mkCtxHeap ∅ 1) [sample_running] 4%nat Background).
  - reflexivity.
  - vm_compute. reflexivity.
Defined.

(** ** What [Stop] sees of one loop *)

Lemma apply_events_reported (processName : string) (evs : list Event) :
  (∀ n s, EvUpdateState n s ∈ evs → n = processName) →
  ∀ m : gmap string State,
    apply_events m evs
    = match last (reported processName evs) with
      | Some s => <[processName := s]> m
      | None => m
      end.
Proof.
  induction evs as [|e evs IH]; intros Hname m; [done|].
  unfold apply_events in *. cbn [foldl]. rewrite IH.
  2:{ intros n s Hin. apply (Hname n s). by right. }
  rewrite reported_cons.
  destruct e as [n s| | | | | | | | |]; try reflexivity.
  rewrite (Hname n s) by by left. rewrite decide_True by done.
  rewrite last_cons. simpl. unfold updateState.
  destruct (last (reported processName evs)); [|done].
  by rewrite insert_insert_eq.
Qed.

Lemma run_last_state (w : Workflow) (role processName : string)
    (errBackOff : Duration) (turns : list Turn) :
  ∃ s,
    last (reported processName (run w role processName errBackOff turns).1)
    = Some s
    ∧ (s = StateShutdown ↔ (run w role processName errBackOff turns).2 = Return)
    ∧ s ≠ StateUnknown.
Proof.
  unfold run. cbn [fst snd]. rewrite reported_update, reported_app.
  rewrite run_loop_states.
  destruct (run_loop w role processName errBackOff turns).2.
  - change (reported processName []) with (@nil State). rewrite app_nil_r.
    destruct (count is_process _) as [|k].
    + exists StateIdle. by repeat split.
    + exists StateRunning. rewrite replicate_S_end, app_comm_cons, last_snoc.
      by repeat split.
  - rewrite reported_update. change (reported processName []) with (@nil State).
    exists StateShutdown. rewrite app_comm_cons, last_snoc. by repeat split.
Qed.

(** The loop and [Stop] meet in the internal state: with every other
    process stopped, the state a loop's reports leave behind lets [Stop]
    return exactly if that loop has returned; until then the process
    stands as Idle or Running and [Stop] keeps waiting.  The loop touches
    no entry but its own. *)
Theorem Stop_sees_loop_return (w : Workflow) (role processName : string)
    (errBackOff : Duration) (turns : list Turn) (m : gmap string State) :
  quiescent m →
  let states := apply_events m (run w role processName errBackOff turns).1 in
  (quiescent states ↔ (run w role processName errBackOff turns).2 = Return)
  ∧ (Stop_wait 0 [states] = Some 1%nat
     ↔ (run w role processName errBackOff turns).2 = Return)
  ∧ ∀ name, name ≠ processName → states !! name = m !! name.
Proof.
  intros Hm. cbv zeta.
  destruct (run_last_state w role processName errBackOff turns)
    as (s & Hlast & Hs & Hknown).
  rewrite (apply_events_reported processName).
  2:{ intros n s' Hin. by apply run_reports in Hin as [-> _]. }
  rewrite Hlast.
  assert (quiescent (<[processName := s]> m)
          ↔ (run w role processName errBackOff turns).2 = Return) as Hq.
  { rewrite <- Hs. split.
    - intros Hq. destruct (Hq processName s (lookup_insert_eq _ _ _)); done.
    - intros ->. apply map_Forall_insert_2; [by right|done]. }
  split; [exact Hq|]. split.
  - rewrite <- Hq, <- runningProcesses_zero. simpl.
    destruct (Nat.eqb_spec (runningProcesses (<[processName:=s]> m)) 0);
      split; try done; congruence.
  - intros name Hne. by rewrite lookup_insert_ne.
Qed.

Lemma Stop_sees_loop_return_witness :
  let states :=
    apply_events ∅
      (run sample_started "role" "process" 1000 [sample_clean; sample_stop]).1 in
  (quiescent states
   ↔ (run sample_started "role" "process" 1000 [sample_clean; sample_stop]).2
     = Return)
  ∧ (Stop_wait 0 [states] = Some 1%nat
     ↔ (run sample_started "role" "process" 1000 [sample_clean; sample_stop]).2
       = Return)
  ∧ ∀ name, name ≠ "process" → states !! name = (∅ : gmap string State) !! name.
Proof.
  apply (Stop_sees_loop_return sample_started "role" "process" 1000
           [sample_clean; sample_stop] ∅).
  apply map_Forall_empty.
Defined.

End EngineMore.

(** * Further properties of builder.go *)

Module DSLMore.

Import DSL DSLExt DSLFacts.

(** ** How build options compose *)



Example build_options_sample :
  let bo :=
    apply_opts
      (denote <$> [OptPauseRetry 60; OptTimeoutStore (Some "first");
                   OptDebugMode; OptDisablePauseRetry;
                   OptTimeoutStore (Some "second");
                   OptDefaultOptions [sample_lag 5]])
      (defaultBuildOptions "outbox" (sample_polling 500 options.zero)
         (mkPausedRecordsRetry true 3600)) in
  buildOptions.timeoutStore bo = Some "second"
  ∧ buildOptions.debugMode bo = true
  ∧ buildOptions.autoPauseRetry bo = mkPausedRecordsRetry false 60
  ∧ buildOptions.defaultOptions bo = sample_lag 5 options.zero.
Proof. by vm_compute. Qed.

(** ** Step options *)


(** ** What builder calls leave alone *)

Section Programs.

Variable String : Status → string.

Lemma step_options_frame (s : stepUpdater.t) (withOptions : list (list Option)) :
  ∀ w : Workflow.t,
    let w' := foldl (λ w opts, stepUpdater_WithOptions s opts w) w withOptions in
    Workflow.callback w' = Workflow.callback w
    ∧ Workflow.timeouts w' = Workflow.timeouts w
    ∧ Workflow.clock w' = Workflow.clock w
    ∧ Workflow.logger_inner w' = Workflow.logger_inner w.
Proof.
  induction withOptions as [|opts rest IH]; intros w; [done|].
  cbv zeta. simpl. destruct (IH (stepUpdater_WithOptions s opts w))
    as (-> & -> & -> & ->). done.
Qed.

Lemma timeout_option_inv (s : timeoutUpdater.t) (opts : list Option)
    (w w' : Workflow.t) :
  timeoutUpdater_WithOptions s opts w = Done tt w' →
  Workflow.callback w' = Workflow.callback w
  ∧ Workflow.clock w' = Workflow.clock w
  ∧ Workflow.logger_inner w' = Workflow.logger_inner w
  ∧ (∀ S, transitions_of w' S = transitions_of w S)
  ∧ (∀ S, is_Some (Workflow.timeouts w' !! S)
          ↔ is_Some (Workflow.timeouts w !! S) ∨ S = timeoutUpdater.from s).
Proof.
  unfold timeoutUpdater_WithOptions.
  destruct (negb _); [discriminate|]. destruct (negb _); [discriminate|].
  intros [= <-]. simpl. repeat split; try done.
  - intros S. unfold transitions_of. simpl.
    destruct (decide (timeoutUpdater.from s = S)) as [->|Hne].
    + by rewrite lookup_insert_eq.
    + by rewrite lookup_insert_ne.
  - destruct (decide (timeoutUpdater.from s = S)) as [->|Hne].
    + by right.
    + rewrite lookup_insert_ne by done. by left.
  - destruct (decide (timeoutUpdater.from s = S)) as [->|Hne].
    + intros _. rewrite lookup_insert_eq. eauto.
    + rewrite lookup_insert_ne by done. intros [?|?]; [done|congruence].
Qed.

Lemma timeout_options_inv (s : timeoutUpdater.t)
    (withOptions : list (list Option)) :
  ∀ w w' : Workflow.t,
    timeout_options s withOptions w = Done tt w' →
    is_Some (Workflow.timeouts w !! timeoutUpdater.from s) →
    Workflow.callback w' = Workflow.callback w
    ∧ Workflow.clock w' = Workflow.clock w
    ∧ Workflow.logger_inner w' = Workflow.logger_inner w
    ∧ (∀ S, transitions_of w' S = transitions_of w S)
    ∧ (∀ S, is_Some (Workflow.timeouts w' !! S)
            ↔ is_Some (Workflow.timeouts w !! S)).
Proof.
  induction withOptions as [|opts rest IH]; intros w w'; simpl.
  - by intros [= <-].
  - destruct (timeoutUpdater_WithOptions s opts w) as [[] w1|] eqn:Hopts;
      [|discriminate].
    intros Hrest Hfrom.
    apply timeout_option_inv in Hopts as (H1 & H2 & H3 & H4 & H5).
    destruct (IH _ _ Hrest) as (I1 & I2 & I3 & I4 & I5).
    { apply H5. by right. }
    rewrite I1, I2, I3, H1, H2, H3. repeat split; try done.
    + intros S. by rewrite I4, H4.
    + intros HS. apply I5 in HS. apply H5 in HS. by destruct HS as [?| ->].
    + intros HS. apply I5, H5. by left.
Qed.

Lemma callbacks_for_app (S : Status) (cs1 cs2 : list call) :
  callbacks_for S (cs1 ++ cs2) = callbacks_for S cs1 ++ callbacks_for S cs2.
Proof. apply omap_app. Qed.

Lemma timeouts_for_app (S : Status) (cs1 cs2 : list call) :
  timeouts_for S (cs1 ++ cs2) = timeouts_for S cs1 ++ timeouts_for S cs2.
Proof. apply omap_app. Qed.

Lemma is_Some_or_nil {A B : Type} (mx : option A) :
  is_Some mx ↔ is_Some mx ∨ @nil B ≠ [].
Proof. split; [by left|by intros [?|?]]. Qed.

Lemma exec_registers (c : call) (w w' : Workflow.t) :
  exec String c w = Done tt w' →
  Workflow.clock w' = Workflow.clock w
  ∧ Workflow.logger_inner w' = Workflow.logger_inner w
  ∧ ∀ S,
      callbacks_of w' S = callbacks_of w S ++ callbacks_for S [c]
      ∧ transitions_of w' S = transitions_of w S ++ timeouts_for S [c]
      ∧ (is_Some (Workflow.timeouts w' !! S)
         ↔ is_Some (Workflow.timeouts w !! S) ∨ timeouts_for S [c] ≠ []).
Proof.
  destruct c as [from f dests withOptions|from fn dests
                |from timer tf dests withOptions]; simpl.
  - unfold AddStep. destruct (Workflow.consumers w !! from); [discriminate|].
    intros [= <-].
    match goal with
    | |- context [foldl ?g ?w0 withOptions] =>
        destruct (step_options_frame (stepUpdater.mk from) withOptions w0)
          as (Hcb & Hts & Hclock & Hlog)
    end.
    unfold callbacks_of, transitions_of. rewrite Hcb, Hts, Hclock, Hlog. simpl.
    split; [done|]. split; [done|]. intros S. rewrite !app_nil_r.
    split; [done|]. split; [done|]. apply is_Some_or_nil.
  - intros [= <-]. simpl. split; [done|]. split; [done|]. intros S.
    unfold callbacks_of, transitions_of, callbacks_for. simpl.
    rewrite app_nil_r. split; [|split; [done|apply is_Some_or_nil]].
    destruct (decide (from = S)) as [->|Hne]; simpl.
    + by rewrite lookup_insert_eq.
    + rewrite lookup_insert_ne by done. by rewrite app_nil_r.
  - intros Hopts. apply timeout_options_inv in Hopts
      as (Hcb & Hclock & Hlog & Htr & Hdom).
    2:{ simpl. rewrite lookup_insert_eq. eauto. }
    unfold callbacks_of. rewrite Hcb, Hclock, Hlog. simpl.
    split; [done|]. split; [done|].
    intros S. rewrite app_nil_r.
    split; [done|]. rewrite Htr, Hdom. unfold transitions_of, timeouts_for. simpl.
    destruct (decide (from = S)) as [->|Hne]; simpl.
    + rewrite lookup_insert_eq. simpl. split; [done|]. split; [by right|eauto].
    + rewrite lookup_insert_ne by done. rewrite app_nil_r.
      split; [done|]. apply is_Some_or_nil.
Qed.

Lemma exec_all_registers (cs : list call) :
  ∀ w0 w : Workflow.t,
    exec_all String cs w0 = Done tt w →
    Workflow.clock w = Workflow.clock w0
    ∧ Workflow.logger_inner w = Workflow.logger_inner w0
    ∧ ∀ S,
        callbacks_of w S = callbacks_of w0 S ++ callbacks_for S cs
        ∧ transitions_of w S = transitions_of w0 S ++ timeouts_for S cs
        ∧ (is_Some (Workflow.timeouts w !! S)
           ↔ is_Some (Workflow.timeouts w0 !! S) ∨ timeouts_for S cs ≠ []).
Proof.
  induction cs as [|c cs IH]; intros w0 w.
  - simpl. intros [= <-]. split; [done|]. split; [done|]. intros S.
    rewrite !app_nil_r. split; [done|]. split; [done|]. apply is_Some_or_nil.
  - cbn [exec_all].
    destruct (exec String c w0) as [[] w1|] eqn:Hexec; [|discriminate].
    intros Hrest. apply exec_registers in Hexec as (H1 & H2 & H3).
    destruct (IH _ _ Hrest) as (I1 & I2 & I3).
    rewrite I1, I2, H1, H2. split; [done|]. split; [done|]. intros S.
    destruct (H3 S) as (Hc & Ht & Hd), (I3 S) as (Ic & It & Id).
    change (c :: cs) with ([c] ++ cs).
    rewrite callbacks_for_app, timeouts_for_app.
    rewrite Ic, It, Hc, Ht, !app_assoc. split; [done|]. split; [done|].
    rewrite Id, Hd.
    destruct (timeouts_for S [c]) as [|t ts] eqn:Hone; simpl.
    + split; [intros [[?|Hn]|?]; [by left|by destruct Hn|by right]
             |intros [?|?]; [by left; left|by right]].
    + split; [intros _; by right|]. intros _. left. by right.
Qed.

End Programs.

(** ** What a builder program has registered *)

Lemma timeouts_for_cons (S : Status) (c : call) (cs : list call) :
  timeouts_for S (c :: cs) = timeouts_for S [c] ++ timeouts_for S cs.
Proof. apply (timeouts_for_app S [c] cs). Qed.

Lemma timeouts_for_some (cs : list call) :
  existsb adds_timeout cs = true ↔ ∃ S, timeouts_for S cs ≠ [].
Proof.
  induction cs as [|c cs IH].
  - split; [discriminate|]. by intros [S HS].
  - cbn [existsb]. rewrite orb_true_iff, IH. split.
    + intros [Hc|[S HS]].
      * destruct c as [| |from timer tf dests withOptions]; try discriminate.
        exists from. rewrite timeouts_for_cons. unfold timeouts_for at 1.
        simpl. by rewrite decide_True.
      * exists S. rewrite timeouts_for_cons. by intros [_ ?]%app_eq_nil.
    + intros [S HS]. rewrite timeouts_for_cons in HS.
      destruct c as [| |from timer tf dests withOptions];
        [right; by exists S|right; by exists S|by left].
Qed.

Section Registered.

Variable String : Status → string.
Variable defaultOutboxConfig : outboxConfig.
Variable defaultOptions : options.t.
Variable defaultPausedRecordsRetry : pausedRecordsRetry.

(** In a workflow configured by a builder program that has run to its
    end, the callbacks of every status are exactly those the program
    added for it, in the order of the calls; any number may be added for
    one status. *)
Theorem callbacks_in_registration_order (name : string) (cs : list call)
    (w : Workflow.t) :
  exec_all String cs (NewBuilder name) = Done tt w →
  ∀ S, default [] (Workflow.callback w !! S) = callbacks_for S cs.
Proof.
  intros Hrun S. destruct (exec_all_registers String _ _ _ Hrun) as (_ & _ & H).
  destruct (H S) as (Hc & _ & _). unfold callbacks_of in Hc. rewrite Hc.
  simpl. by rewrite lookup_empty.
Qed.

(** In a workflow configured by a builder program that has run to its
    end, the timers and actions of every status are exactly those the
    program added for it, in the order of the calls, whatever options
    were set through the updaters; and a status has a timeout
    configuration exactly if a timeout was added for it. *)
Theorem timeouts_in_registration_order (name : string) (cs : list call)
    (w : Workflow.t) :
  exec_all String cs (NewBuilder name) = Done tt w →
  ∀ S,
    timeouts.transitions (default timeouts.zero (Workflow.timeouts w !! S))
    = timeouts_for S cs
    ∧ (is_Some (Workflow.timeouts w !! S) ↔ timeouts_for S cs ≠ []).
Proof.
  intros Hrun S. destruct (exec_all_registers String _ _ _ Hrun) as (_ & _ & H).
  destruct (H S) as (_ & Ht & Hd). unfold transitions_of in Ht.
  rewrite Ht, Hd. simpl. rewrite lookup_empty. simpl. split; [done|].
  split; [intros [[? [=]]|?]; done|by right].
Qed.

Lemma configured_timeouts (name : string) (cs : list call) (w : Workflow.t) :
  exec_all String cs (NewBuilder name) = Done tt w →
  bool_decide (0 < size (Workflow.timeouts w))%nat = existsb adds_timeout cs.
Proof.
  intros Hrun. destruct (exec_all_registers String _ _ _ Hrun) as (_ & _ & H).
  destruct (existsb adds_timeout cs) eqn:Hcs.
  - apply timeouts_for_some in Hcs as [S HS].
    apply bool_decide_eq_true_2, Nat.neq_0_lt_0, map_size_non_empty_iff.
    intros Hempty. destruct (H S) as (_ & _ & Hd).
    destruct (proj2 Hd (or_intror HS)) as [t Ht].
    by rewrite Hempty, lookup_empty in Ht.
  - apply bool_decide_eq_false_2. intros Hsize.
    assert (Workflow.timeouts w ≠ ∅) as Hne.
    { apply map_size_non_empty_iff. lia. }
    apply map_choose in Hne as (S & t & Ht).
    destruct (H S) as (_ & _ & Hd).
    destruct (proj1 Hd (mk_is_Some _ _ Ht)) as [[? Hnew]|HS].
    + simpl in Hnew. by rewrite lookup_empty in Hnew.
    + assert (existsb adds_timeout cs = true) as Hyes;
        [apply timeouts_for_some; by exists S|congruence].
Qed.

(** Building a workflow configured by a builder program that has run to
    its end panics exactly if the program has added a timeout and the
    build options name no timeout store; otherwise it returns the
    workflow. *)
Theorem timeouts_need_store (name : string) (cs : list call) (w : Workflow.t)
    (eventStreamer recordStore roleScheduler : Iface) (opts : list BuildOption) :
  exec_all String cs (NewBuilder name) = Done tt w →
  Build defaultOutboxConfig defaultOptions defaultPausedRecordsRetry
    eventStreamer recordStore roleScheduler opts w
  = let bo :=
      apply_opts opts
        (defaultBuildOptions defaultOutboxConfig defaultOptions
           defaultPausedRecordsRetry) in
    let w' := Build_assign eventStreamer recordStore roleScheduler bo w in
    if existsb adds_timeout cs
       && bool_decide (buildOptions.timeoutStore bo = None)
    then
      Panic "cannot configure timeouts without providing TimeoutStore for workflow" w'
    else Done tt w'.
Proof.
  intros Hrun. unfold Build. cbv zeta.
  change (Workflow.timeouts (Build_assign _ _ _ _ w)) with (Workflow.timeouts w).
  by rewrite (configured_timeouts _ _ _ Hrun).
Qed.

(** A workflow configured by a builder program and then built always has
    a clock and a logger: the builder starts with both, no builder call
    changes them, and a nil clock or logger among the build options is
    ignored. *)
Theorem built_workflow_has_clock_and_logger (name : string) (cs : list call)
    (w : Workflow.t) (eventStreamer recordStore roleScheduler : Iface)
    (opts : list BuildOption) :
  exec_all String cs (NewBuilder name) = Done tt w →
  match Build defaultOutboxConfig defaultOptions defaultPausedRecordsRetry
          eventStreamer recordStore roleScheduler opts w with
  | Done _ w' | Panic _ w' =>
      is_Some (Workflow.clock w') ∧ is_Some (Workflow.logger_inner w')
  end.
Proof.
  intros Hrun.
  destruct (exec_all_registers String _ _ _ Hrun) as (Hclock & Hlog & _).
  unfold Build. cbv zeta.
  assert (∀ bo,
            is_Some (Workflow.clock
                       (Build_assign eventStreamer recordStore roleScheduler bo w))
            ∧ is_Some (Workflow.logger_inner
                         (Build_assign eventStreamer recordStore roleScheduler bo w)))
    as Hboth.
  { intros bo. simpl. rewrite Hclock, Hlog. simpl.
    destruct (buildOptions.clock bo), (buildOptions.logger bo); eauto. }
  destruct (_ && _); apply Hboth.
Qed.

End Registered.

Lemma callbacks_in_registration_order_witness :
  default [] (Workflow.callback sample_configured !! 2)
  = callbacks_for 2 sample_program.
Proof.
  refine (callbacks_in_registration_order sample_String "sample" sample_program
            sample_configured _ 2).
  vm_compute. reflexivity.
Defined.

Lemma timeouts_in_registration_order_witness :
  timeouts.transitions
    (default timeouts.zero (Workflow.timeouts sample_configured !! 1))
  = timeouts_for 1 sample_program
  ∧ (is_Some (Workflow.timeouts sample_configured !! 1)
     ↔ timeouts_for 1 sample_program ≠ []).
Proof.
  refine (timeouts_in_registration_order sample_String "sample" sample_program
            sample_configured _ 1).
  vm_compute. reflexivity.
Defined.

Lemma timeouts_need_store_witness :
  Build "" options.zero (mkPausedRecordsRetry true 3600000000000)
    (Some "streamer") (Some "store") (Some "scheduler") [WithClock None]
    sample_configured
  = let bo :=
      apply_opts [WithClock None]
        (defaultBuildOptions "" options.zero
           (mkPausedRecordsRetry true 3600000000000)) in
    let w' :=
      Build_assign (Some "streamer") (Some "store") (Some "scheduler") bo
        sample_configured in
    if existsb adds_timeout sample_program
       && bool_decide (buildOptions.timeoutStore bo = None)
    then
      Panic "cannot configure timeouts without providing TimeoutStore for workflow" w'
    else Done tt w'.
Proof.
  apply (timeouts_need_store sample_String "" options.zero
           (mkPausedRecordsRetry true 3600000000000) "sample" sample_program
           sample_configured).
  vm_compute. reflexivity.
Defined.

Lemma built_workflow_has_clock_and_logger_witness :
  match Build "" options.zero (mkPausedRecordsRetry true 3600000000000)
          (Some "streamer") (Some "store") (Some "scheduler")
          [WithClock None; WithLogger None; WithTimeoutStore (Some "timeouts")]
          sample_configured with
  | Done _ w' | Panic _ w' =>
      is_Some (Workflow.clock w') ∧ is_Some (Workflow.logger_inner w')
  end.
Proof.
  apply (built_workflow_has_clock_and_logger sample_String "" options.zero
           (mkPausedRecordsRetry true 3600000000000) "sample" sample_program
           sample_configured).
  vm_compute. reflexivity.
Defined.

(** ** Connectors *)

Lemma lookups_in_order {A : Type} (l : list A) :
  ∀ pre : list A,
    omap (λ p, (pre ++ l) !! p) (seq (length pre) (length l)) = l.
Proof.
  induction l as [|x l IH]; intros pre; [done|].
  cbn [length seq omap list_omap].
  rewrite list_lookup_middle by done.
  specialize (IH (pre ++ [x])). rewrite <- app_assoc, length_app in IH.
  simpl in IH. rewrite Nat.add_1_r in IH. by rewrite IH.
Qed.

Lemma connectors_of_listed (st : Connectors) :
  listed st → connectors_of st = objects st.
Proof.
  unfold listed, connectors_of. intros ->. apply (lookups_in_order _ []).
Qed.

Lemma existsb_named (st : Connectors) (name : string) :
  listed st →
  existsb (named st name) (connectorConfigs st) = true
  ↔ name ∈ connectorConfig.name <$> objects st.
Proof.
  intros Hl. rewrite existsb_exists, list_elem_of_fmap. split.
  - intros (p & _ & Hp). unfold named in Hp.
    destruct (objects st !! p) as [c|] eqn:Hc; [|discriminate].
    apply bool_decide_eq_true in Hp. exists c. split; [done|].
    by eapply list_elem_of_lookup_2.
  - intros (c & -> & Hc). apply list_elem_of_lookup in Hc as [p Hp].
    exists p. split.
    + rewrite Hl. apply in_seq. apply lookup_lt_Some in Hp. lia.
    + unfold named. rewrite Hp. by apply bool_decide_eq_true.
Qed.

Lemma exec_connector_inv (c : connector_call) (st st' : Connectors) (p : nat) :
  listed st →
  exec_connector c st = Added p st' →
  listed st'
  ∧ connectorConfig.name <$> objects st'
    = (connectorConfig.name <$> objects st) ++ added_names [c]
  ∧ ∀ name, name ∈ added_names [c] → name ∉ connectorConfig.name <$> objects st.
Proof.
  intros Hl. destruct c as [name csc cf|config opts]; simpl.
  - unfold AddConnector.
    destruct (existsb (named st name) (connectorConfigs st)) eqn:Hex;
      [discriminate|].
    intros [= <- <-]. unfold listed in *. simpl. split; [|split].
    + rewrite length_app. simpl. rewrite Nat.add_1_r, seq_S. by rewrite Hl.
    + by rewrite fmap_app.
    + intros name' Hin. apply list_elem_of_singleton in Hin as ->.
      intros Hin. apply existsb_named in Hin; [congruence|done].
  - intros [= <- <-]. unfold listed in *. simpl. split; [|split].
    + by rewrite length_alter.
    + rewrite app_nil_r. rewrite (list_fmap_alter _ _ id).
      * by apply list_alter_id.
      * by apply Forall_forall.
    + intros name Hin. by apply elem_of_nil in Hin.
Qed.

Lemma exec_connectors_inv (cs : list connector_call) :
  ∀ st st' : Connectors,
    listed st →
    NoDup (connectorConfig.name <$> objects st) →
    exec_connectors cs st = Some st' →
    listed st'
    ∧ connectorConfig.name <$> objects st'
      = (connectorConfig.name <$> objects st) ++ added_names cs
    ∧ NoDup (connectorConfig.name <$> objects st').
Proof.
  induction cs as [|c cs IH]; intros st st' Hl Hnd; simpl.
  - intros [= <-]. by rewrite app_nil_r.
  - destruct (exec_connector c st) as [p st1|] eqn:Hc; [|discriminate].
    intros Hrest.
    destruct (exec_connector_inv _ _ _ _ Hl Hc) as (Hl1 & Hn1 & Hfresh).
    destruct (IH st1 st' Hl1) as (Hl' & Hn' & Hnd'); [|done|].
    + rewrite Hn1. apply NoDup_app. split; [done|]. split.
      * intros name Hin Hnew. by apply (Hfresh name).
      * unfold added_names. simpl. destruct c; simpl; repeat constructor.
        by intros ?%elem_of_nil.
    + split; [done|]. split; [|done].
      rewrite Hn', Hn1, <- app_assoc. f_equal.
      symmetry. exact (omap_app _ [c] cs).
Qed.

(** In every program over connectors that runs to its end from a fresh
    builder, the connectors of the workflow carry exactly the names
    added, in the order of the calls, and these are pairwise distinct;
    adding a connector under a name already there panics and changes
    nothing. *)
Theorem connector_names_unique (cs : list connector_call) (st : Connectors) :
  exec_connectors cs no_connectors = Some st →
  connectorConfig.name <$> connectors_of st = added_names cs
  ∧ NoDup (added_names cs)
  ∧ ∀ name csc cf,
      name ∈ added_names cs →
      AddConnector name csc cf st
      = ConnectorPanic "connector names need to be unique" st.
Proof.
  intros Hrun.
  destruct (exec_connectors_inv cs no_connectors st) as (Hl & Hn & Hnd);
    [done|constructor|done|].
  simpl in Hn. rewrite connectors_of_listed by done. rewrite <- Hn.
  split; [done|]. split; [done|].
  intros name csc cf Hin. unfold AddConnector.
  by rewrite (proj2 (existsb_named st name Hl) Hin).
Qed.

Lemma connector_names_unique_witness :
  connectorConfig.name <$> connectors_of sample_connected
  = added_names sample_connectors
  ∧ NoDup (added_names sample_connectors)
  ∧ ∀ name csc cf,
      name ∈ added_names sample_connectors →
      AddConnector name csc cf sample_connected
      = ConnectorPanic "connector names need to be unique" sample_connected.
Proof.
  apply (connector_names_unique sample_connectors).
  vm_compute. reflexivity.
Defined.

(** Options set through a connector's updater reach the workflow: in a
    workflow configured by a program over connectors, [WithOptions] on
    the updater of the [k]-th connector replaces that connector's
    parallel count, error backoff, lag and lag alert by those of the
    call, keeps its name, constructor and function, and leaves every
    other connector as it is. *)
Theorem connector_options_reach_workflow (cs : list connector_call)
    (st : Connectors) (k : nat) (opts : list Option) (c : connectorConfig.t) :
  exec_connectors cs no_connectors = Some st →
  connectors_of st !! k = Some c →
  connectors_of (connectorUpdater_WithOptions k opts st)
  = <[k := connectorConfig.mk (connectorConfig.name c)
             (connectorConfig.constructor c) (connectorConfig.connectorFn c)
             (options.parallelCount (apply_opts opts options.zero))
             (options.errBackOff (apply_opts opts options.zero))
             (options.lag (apply_opts opts options.zero))
             (options.lagAlert (apply_opts opts options.zero))]>
      (connectors_of st).
Proof.
  intros Hrun Hk.
  destruct (exec_connectors_inv cs no_connectors st) as (Hl & _ & _);
    [done|constructor|done|].
  rewrite (connectors_of_listed st) in * by done.
  rewrite connectors_of_listed.
  2:{ unfold listed in *. simpl. by rewrite length_alter. }
  simpl. apply list_eq. intros j. destruct (decide (k = j)) as [<-|Hne].
  - rewrite list_lookup_alter_eq, Hk. simpl.
    rewrite list_lookup_insert_eq; [done|]. by eapply lookup_lt_Some.
  - by rewrite list_lookup_alter_ne, list_lookup_insert_ne.
Qed.

Lemma connector_options_reach_workflow_witness :
  connectors_of (connectorUpdater_WithOptions 1 [sample_parallel 2] sample_connected)
  = <[1%nat := connectorConfig.mk "refunds" "newRefunds" "onRefund"
                 (options.parallelCount
                    (apply_opts [sample_parallel 2] options.zero))
                 (options.errBackOff (apply_opts [sample_parallel 2] options.zero))
                 (options.lag (apply_opts [sample_parallel 2] options.zero))
                 (options.lagAlert (apply_opts [sample_parallel 2] options.zero))]>
      (connectors_of sample_connected).
Proof.
  apply (connector_options_reach_workflow sample_connectors sample_connected
           1%nat [sample_parallel 2]
           (connectorConfig.mk "refunds" "newRefunds" "onRefund" 0 0 0 0)).
  - vm_compute. reflexivity.
  - reflexivity.
Defined.

End DSLMore.
